(** * AerospikeSaver: a checkpoint store over single-key get/put

    Shallow embedding of [langgraph/checkpoint/aerospike/saver.py] and the
    properties of its data model: latest pointer, bounded timeline,
    write-set ledger, read path and listing.

    Python values are dynamically typed, so the embedding works over a
    small universe [pyval] of Python values with the operations the saver
    applies to them ([.get], [==], truthiness, iteration), each raising the
    exception Python raises.  The Aerospike client, the clock, the
    checkpoint serializer, the [json] module and string formatting are
    collaborators outside the saver; they appear as an explicit [world]
    (records, fault schedule, clock) and as the interface [Externals]. *)

From stdpp Require Import gmap strings list fin_maps countable.
From Stdlib Require Import ZArith Lia Ascii.

#[local] Set Warnings "-register-all".
#[local] Open Scope Z_scope.

(** ** Python values *)

(** [PBytes] carries the octets as a string.  A Python dict is kept as an
    association list in insertion order; [dict_set] keeps keys unique. *)
Inductive pyval : Type :=
| PNone
| PBool (b : bool)
| PInt (z : Z)
| PStr (s : string)
| PBytes (b : string)
| PList (l : list pyval)
| PDict (d : list (string * pyval)).

Abbreviation pydict := (list (string * pyval)).

Fixpoint dict_lookup (k : string) (d : pydict) : option pyval :=
  match d with
  | [] => None
  | (k', v) :: d' => if String.eqb k k' then Some v else dict_lookup k d'
  end.

(** [d[k] = v]: overwrite in place when [k] is there, else add at the end. *)
Fixpoint dict_set (k : string) (v : pyval) (d : pydict) : pydict :=
  match d with
  | [] => [(k, v)]
  | (k', v') :: d' =>
      if String.eqb k k' then (k, v) :: d' else (k', v') :: dict_set k v d'
  end.

(** [d.update(e)] for a dict [e]. *)
Definition dict_update (d e : pydict) : pydict :=
  fold_left (fun acc kv => dict_set (fst kv) (snd kv) acc) e d.

(** Truth value of an object, as [if x], [not x] and [x or y] take it. *)
Definition py_truthy (v : pyval) : bool :=
  match v with
  | PNone => false
  | PBool b => b
  | PInt z => negb (Z.eqb z 0)
  | PStr s => negb (String.eqb s EmptyString)
  | PBytes b => negb (String.eqb b EmptyString)
  | PList l => match l with [] => false | _ => true end
  | PDict d => match d with [] => false | _ => true end
  end.

Definition py_or (a b : pyval) : pyval := if py_truthy a then a else b.

(** [x is None] *)
Definition py_is_none (v : pyval) : bool :=
  match v with PNone => true | _ => false end.

(** Python's [==]: [bool] is a subtype of [int] ([True == 1]), sequences
    compare element by element, dicts compare as mappings whatever their
    insertion order, and objects of unrelated types are unequal. *)
Fixpoint py_eq (a b : pyval) {struct a} : bool :=
  match a, b with
  | PNone, PNone => true
  | PBool x, PBool y => Bool.eqb x y
  | PBool x, PInt y => Z.eqb (Z.b2z x) y
  | PInt x, PBool y => Z.eqb x (Z.b2z y)
  | PInt x, PInt y => Z.eqb x y
  | PStr x, PStr y => String.eqb x y
  | PBytes x, PBytes y => String.eqb x y
  | PList l1, PList l2 =>
      (fix go (l1 l2 : list pyval) : bool :=
         match l1, l2 with
         | [], [] => true
         | x :: l1', y :: l2' => py_eq x y && go l1' l2'
         | _, _ => false
         end) l1 l2
  | PDict d1, PDict d2 =>
      Nat.eqb (length d1) (length d2) &&
      (fix go (d1 : pydict) : bool :=
         match d1 with
         | [] => true
         | (k, v) :: d1' =>
             match dict_lookup k d2 with
             | Some v' => py_eq v v'
             | None => false
             end && go d1'
         end) d1
  | _, _ => false
  end.

(** The values the [json] module writes and reads back unchanged: no
    bytes anywhere inside. *)
Fixpoint is_json (v : pyval) : bool :=
  match v with
  | PBytes _ => false
  | PList l => forallb is_json l
  | PDict d => forallb (fun kv => is_json (snd kv)) d
  | _ => true
  end.

(** ** Exceptions and results *)

Abbreviation key := (string * string * string)%type.

Inductive io_op : Type := OpGet | OpPut.

(** [RuntimeError op k] is the saver's own error, whose message names the
    failed operation and key; [RecordNotFound] and [AerospikeError] are the
    client's ([RecordNotFound] is a subclass of [AerospikeError]). *)
Inductive exn : Type :=
| ValueError (msg : string)
| TypeError
| AttributeError
| KeyError (k : string)
| JSONDecodeError
| RecordNotFound
| AerospikeError
| RuntimeError (op : io_op) (k : key).

Inductive result (A : Type) : Type :=
| Ok (a : A)
| Raise (e : exn).
Arguments Ok {A} a.
Arguments Raise {A} e.

Definition rbind {A B} (r : result A) (f : A → result B) : result B :=
  match r with
  | Ok a => f a
  | Raise e => Raise e
  end.

Declare Scope py_scope.
Delimit Scope py_scope with py.
Notation "x <~ e ;; k" := (rbind e (fun x => k))
  (at level 100, e at next level, right associativity) : py_scope.

(** [obj.get(k, default)]: only a dict has the method. *)
Definition py_get (obj : pyval) (k : string) (dflt : pyval) : result pyval :=
  match obj with
  | PDict d => Ok (default dflt (dict_lookup k d))
  | _ => Raise AttributeError
  end.

(** [obj[k]] with a string subscript. *)
Definition py_getitem (obj : pyval) (k : string) : result pyval :=
  match obj with
  | PDict d =>
      match dict_lookup k d with
      | Some v => Ok v
      | None => Raise (KeyError k)
      end
  | _ => Raise TypeError
  end.

Fixpoint chars_of (s : string) : list pyval :=
  match s with
  | EmptyString => []
  | String a s' => PStr (String a EmptyString) :: chars_of s'
  end.

Fixpoint octets_of (s : string) : list pyval :=
  match s with
  | EmptyString => []
  | String a s' => PInt (Z.of_nat (Ascii.nat_of_ascii a)) :: octets_of s'
  end.

(** The elements a [for] loop over the object visits. *)
Definition py_iter (obj : pyval) : result (list pyval) :=
  match obj with
  | PList l => Ok l
  | PDict d => Ok (map (fun kv => PStr (fst kv)) d)
  | PStr s => Ok (chars_of s)
  | PBytes b => Ok (octets_of b)
  | PNone | PBool _ | PInt _ => Raise TypeError
  end.

(** [obj[i] = v] for an index the caller found by enumerating [obj]. *)
Definition py_setitem (obj : pyval) (i : nat) (v : pyval) : result pyval :=
  match obj with
  | PList l => Ok (PList (<[i := v]> l))
  | _ => Raise TypeError
  end.

(** [obj.append(v)]: only a list has the method. *)
Definition py_append (obj : pyval) (v : pyval) : result pyval :=
  match obj with
  | PList l => Ok (PList (l ++ [v]))
  | _ => Raise AttributeError
  end.

(** [dict(obj)], and the argument of [d.update(obj)], for a mapping. *)
Definition py_dict (obj : pyval) : result pydict :=
  match obj with
  | PDict d => Ok d
  | _ => Raise TypeError
  end.

(** ** Collaborators outside the saver *)

(** [py_str] is the text an f-string puts for [{x}]; [dumps_typed] and
    [loads_typed] are [self.serde] (a type tag and bytes); [json_dumps]
    and [json_loads] are the [json] module ([None] where it raises);
    [WRITES_IDX_MAP] is the table of reserved channels imported from
    [langgraph.checkpoint.base]. *)
Class Externals : Type := {
  py_str : pyval → string;
  dumps_typed : pyval → string * string;
  loads_typed : pyval → pyval → result pyval;
  json_dumps : pyval → option string;
  json_loads : string → option pyval;
  WRITES_IDX_MAP : list (string * Z);
}.

(** What the theorems below assume of them. *)
Record ExternalsLaws (E : Externals) : Prop := {
  py_str_str : ∀ s, py_str (PStr s) = s;
  serde_roundtrip : ∀ v t b,
    dumps_typed v = (t, b) → loads_typed (PStr t) (PBytes b) = Ok v;
  json_roundtrip : ∀ v,
    is_json v = true → ∃ s, json_dumps v = Some s ∧ json_loads s = Some v;
  json_loads_json : ∀ s v, json_loads s = Some v → is_json v = true;
}.

(** ** The world: backend records, fault schedule, clock *)

Abbreviation bins := (gmap string pyval).

(** The [n]-th client call fails with a backend error when
    [io_fault n]; the [n]-th clock reading is [clock n]. *)
Record world : Type := {
  records : gmap key bins;
  io_count : nat;
  io_fault : nat → bool;
  clock_count : nat;
  clock : nat → Z;
}.

Definition M (A : Type) : Type := world → result A * world.

Definition ret {A} (a : A) : M A := fun w => (Ok a, w).

Definition raise {A} (e : exn) : M A := fun w => (Raise e, w).

Definition bind {A B} (m : M A) (f : A → M B) : M B :=
  fun w =>
    match m w with
    | (Ok a, w') => f a w'
    | (Raise e, w') => (Raise e, w')
    end.

Definition lift {A} (r : result A) : M A := fun w => (r, w).

(** [try: m  except <handled>: h e] *)
Definition try_except {A} (m : M A) (handled : exn → bool) (h : exn → M A) : M A :=
  fun w =>
    match m w with
    | (Ok a, w') => (Ok a, w')
    | (Raise e, w') => if handled e then h e w' else (Raise e, w')
    end.

Declare Scope m_scope.
Delimit Scope m_scope with M.
Notation "x <- e ;; k" := (bind e (fun x => k))
  (at level 100, e at next level, right associativity) : m_scope.
Notation "e ;;; k" := (bind e (fun _ => k))
  (at level 100, right associativity) : m_scope.

Definition is_aerospike_error (e : exn) : bool :=
  match e with
  | AerospikeError | RecordNotFound => true
  | _ => false
  end.

Definition is_record_not_found (e : exn) : bool :=
  match e with
  | RecordNotFound => true
  | _ => false
  end.

Definition tick_io (w : world) : world :=
  {| records := records w; io_count := S (io_count w); io_fault := io_fault w;
     clock_count := clock_count w; clock := clock w |}.

Definition set_records (r : gmap key bins) (w : world) : world :=
  {| records := r; io_count := io_count w; io_fault := io_fault w;
     clock_count := clock_count w; clock := clock w |}.

(** [client.put(key, bins, meta)]: writes the given bins of the record,
    creating it when absent and keeping its other bins (the client's
    default write policy).  A bin written as [None] is kept as a bin
    holding [None]: the saver reads bins through [.get], which does not
    tell the two apart.  The expiry in [meta] is not modelled. *)
Definition client_put (k : key) (b : bins) (meta : option (option Z)) : M unit :=
  fun w =>
    if io_fault w (io_count w) then (Raise AerospikeError, tick_io w)
    else (Ok tt,
          tick_io (set_records (<[k := b ∪ default ∅ (records w !! k)]> (records w)) w)).

(** [client.get(key)]: the record as (key, meta, bins); the saver never
    looks at the meta component. *)
Definition client_get (k : key) : M (key * unit * bins) :=
  fun w =>
    if io_fault w (io_count w) then (Raise AerospikeError, tick_io w)
    else match records w !! k with
         | Some b => (Ok (k, tt, b), tick_io w)
         | None => (Raise RecordNotFound, tick_io w)
         end.

(** [time.time_ns()] *)
Definition _now_ns : M Z :=
  fun w =>
    (Ok (clock w (clock_count w)),
     {| records := records w; io_count := io_count w; io_fault := io_fault w;
        clock_count := S (clock_count w); clock := clock w |}).

(** ** The saver *)

Module CheckpointTuple.
Record t : Type := mk {
  config : pyval;
  checkpoint : pyval;
  metadata : pyval;
  parent_config : option pyval;
  pending_writes : list (pyval * pyval * pyval);
}.
End CheckpointTuple.

Record AerospikeSaver : Type := {
  ns : string;
  set_cp : string;
  set_writes : string;
  set_meta : string;
  ttl : option Z;
  timeline_max : Z;
}.

(** [AerospikeSaver.__init__]; the client lives in the [world]. *)
Definition __init__ (namespace set_cp_ set_writes_ set_meta_ : string)
    (ttl_ : option Z) (timeline_max_ : Z) : AerospikeSaver :=
  {| ns := namespace; set_cp := set_cp_; set_writes := set_writes_;
     set_meta := set_meta_; ttl := ttl_; timeline_max := Z.max 1 timeline_max_ |}.

Definition SEP : string := "|".

(** [json.loads(x)]: text or bytes in, [JSONDecodeError] on bad text. *)
Definition json_loads_py `{Externals} (x : pyval) : result pyval :=
  match x with
  | PStr s | PBytes s =>
      match json_loads s with
      | Some v => Ok v
      | None => Raise JSONDecodeError
      end
  | _ => Raise TypeError
  end.

(** [l[:n]] *)
Definition py_slice_to {A} (n : Z) (l : list A) : list A :=
  if 0 <=? n then firstn (Z.to_nat n) l
  else firstn (length l - Z.to_nat (- n)) l.

(** One timeline entry as [_read_timeline_items] accepts it: a two-element
    list whose second element is a string. *)
Definition clean_item (it : pyval) : option (pyval * pyval) :=
  match it with
  | PList [t; PStr c] => Some (t, PStr c)
  | _ => None
  end.

(** [json.dumps] writes a tuple as an array. *)
Definition items_to_json (items : list (pyval * pyval)) : pyval :=
  PList (map (fun it => PList [fst it; snd it]) items).

(** The [before] loop of [list]: drop entries up to and including the
    first one whose id equals [before_id]. *)
Fixpoint before_loop (before_id : pyval) (items : list (pyval * pyval))
    (seen : bool) : list (pyval * pyval) :=
  match items with
  | [] => []
  | (ts, cid) :: items' =>
      if negb seen then
        before_loop before_id items' (if py_eq cid before_id then true else seen)
      else (ts, cid) :: before_loop before_id items' seen
  end.

(** The filter loop of [list]: [tpl.metadata.get(k) != v] for each item
    of the filter, stopping at the first mismatch. *)
Fixpoint filter_ok (flt : pydict) (md : pyval) : result bool :=
  match flt with
  | [] => Ok true
  | (k, v) :: flt' =>
      (x <~ py_get md k PNone ;;
       if negb (py_eq x v) then Ok false else filter_ok flt' md)%py
  end.

Section Saver.
Context `{E : Externals} (self : AerospikeSaver).

Local Open Scope string_scope.

(** Returns (thread_id, checkpoint_ns, checkpoint_id).  [a or b] only
    evaluates [b] when [a] is falsy. *)
Definition _ids_from_config (config : pyval) : result (pyval * pyval * pyval) :=
  (let cfg := py_or config (PDict []) in
   c0 <~ py_get cfg "configurable" (PDict []) ;;
   let c := py_or c0 (PDict []) in
   md0 <~ py_get cfg "metadata" (PDict []) ;;
   let md := py_or md0 (PDict []) in
   t0 <~ py_get c "thread_id" PNone ;;
   thread_id <~ (if py_truthy t0 then Ok t0 else py_get md "thread_id" PNone) ;;
   if negb (py_truthy thread_id) then
     Raise (ValueError "configurable.thread_id is required in RunnableConfig")
   else
     n0 <~ py_get c "checkpoint_ns" PNone ;;
     n1 <~ (if py_truthy n0 then Ok n0 else py_get md "checkpoint_ns" PNone) ;;
     let checkpoint_ns := py_or n1 (PStr EmptyString) in
     checkpoint_id <~ py_get c "checkpoint_id" PNone ;;
     Ok (thread_id, checkpoint_ns, checkpoint_id))%py.

(** *** keys *)

Definition user_key (thread_id checkpoint_ns : pyval) (last : string) : string :=
  py_str thread_id +:+ SEP +:+ py_str checkpoint_ns +:+ SEP +:+ last.

Definition _key_cp (thread_id checkpoint_ns checkpoint_id : pyval) : key :=
  (ns self, set_cp self, user_key thread_id checkpoint_ns (py_str checkpoint_id)).

Definition _key_writes (thread_id checkpoint_ns checkpoint_id : pyval) : key :=
  (ns self, set_writes self, user_key thread_id checkpoint_ns (py_str checkpoint_id)).

Definition _key_latest (thread_id checkpoint_ns : pyval) : key :=
  (ns self, set_meta self, user_key thread_id checkpoint_ns "__latest__").

Definition _key_timeline (thread_id checkpoint_ns : pyval) : key :=
  (ns self, set_meta self, user_key thread_id checkpoint_ns "__timeline__").

(** *** aerospike io *)

Definition _put (k : key) (b : bins) : M unit :=
  let meta := match ttl self with Some t => Some (Some t) | None => None end in
  try_except (client_put k b meta) is_aerospike_error
    (fun _ => raise (RuntimeError OpPut k)).

Definition _get (k : key) : M (option (key * unit * bins)) :=
  try_except
    (try_except (bind (client_get k) (fun r => ret (Some r)))
       is_record_not_found (fun _ => ret None))
    is_aerospike_error (fun _ => raise (RuntimeError OpGet k)).

(** The guarded part of [_read_timeline_items]: any exception gives []. *)
Definition parse_timeline (b : bins) : list (pyval * pyval) :=
  match (items <~ json_loads_py (default (PStr "[]") (b !! "items")) ;;
         its <~ py_iter items ;;
         Ok (omap clean_item its))%py with
  | Ok cleaned => cleaned
  | Raise _ => []
  end.

Definition _read_timeline_items (timeline_key : key) : M (list (pyval * pyval)) :=
  (rec <- _get timeline_key ;;
   match rec with
   | None => ret []
   | Some (_, _, b) => ret (parse_timeline b)
   end)%M.

(** *** put *)

(** [checkpoint] and [metadata] are dicts, as their annotations say.  The
    stamped checkpoint is the one serialized; that the caller's dict is
    updated too is not tracked.  [metadata.update(x)] is modelled for a
    dict [x], the type of a config's metadata entry, and raises
    [TypeError] for anything else. *)
Definition put (config : pyval) (checkpoint : pydict) (metadata : pydict)
    (new_versions : pyval) : M pyval :=
  (ids <- lift (_ids_from_config config) ;;
   let '(thread_id, checkpoint_ns, parent_checkpoint_id) := ids in
   let checkpoint_id := default PNone (dict_lookup "id" checkpoint) in
   if negb (py_truthy checkpoint_id) then
     raise (ValueError "checkpoint_id is required for put()")
   else
     stamped <-
       (let ts := default PNone (dict_lookup "ts" checkpoint) in
        if py_is_none ts then
          (now <- _now_ns ;; ret (PInt now, dict_set "ts" (PInt now) checkpoint))
        else ret (ts, checkpoint)) ;;
     let '(ts, checkpoint) := stamped in
     let '(cp_type, cp_bytes) := dumps_typed (PDict checkpoint) in
     extra0 <- lift (py_get config "metadata" (PDict [])) ;;
     extra <- lift (py_dict extra0) ;;
     let metadata := dict_update metadata extra in
     let '(meta_type, meta_bytes) := dumps_typed (PDict metadata) in
     let k := _key_cp thread_id checkpoint_ns checkpoint_id in
     let rec : bins :=
       list_to_map
         [("thread_id", thread_id);
          ("checkpoint_ns", checkpoint_ns);
          ("checkpoint_id", checkpoint_id);
          ("p_checkpoint_id", parent_checkpoint_id);
          ("cp_type", PStr cp_type);
          ("checkpoint", PBytes cp_bytes);
          ("meta_type", PStr meta_type);
          ("metadata", PBytes meta_bytes);
          ("ts", ts)] in
     _put k rec ;;;
     let latest_key := _key_latest thread_id checkpoint_ns in
     _put latest_key (list_to_map [("checkpoint_id", checkpoint_id); ("ts", ts)]) ;;;
     let timeline_key := _key_timeline thread_id checkpoint_ns in
     items <- _read_timeline_items timeline_key ;;
     let items := List.filter (fun it => negb (py_eq (snd it) checkpoint_id)) items in
     let items := (ts, checkpoint_id) :: items in
     let items :=
       if Z.of_nat (length items) >? timeline_max self
       then py_slice_to (timeline_max self) items else items in
     dumped <- lift (match json_dumps (items_to_json items) with
                     | Some s => Ok s
                     | None => Raise TypeError
                     end) ;;
     _put timeline_key (list_to_map [("items", PStr dumped)]) ;;;
     new_config <- lift (py_dict config) ;;
     conf0 <- lift (py_get (PDict new_config) "configurable" PNone) ;;
     cfg_conf <- lift (py_dict (py_or conf0 (PDict []))) ;;
     let cfg_conf :=
       dict_update cfg_conf
         [("thread_id", thread_id);
          ("checkpoint_ns", checkpoint_ns);
          ("checkpoint_id", checkpoint_id)] in
     ret (PDict (dict_set "configurable" (PDict cfg_conf) new_config)))%M.

(** *** put_writes *)

(** [WRITES_IDX_MAP.get(channel, idx)] *)
Definition writes_idx (channel : string) (idx : Z) : Z :=
  default idx (snd <$> List.find (fun kv => String.eqb channel (fst kv)) WRITES_IDX_MAP).

(** The inner [for i, item in enumerate(existing_items)] scan, from
    position [i] on: the first entry with this task id and index. *)
Fixpoint find_replace (task_id : string) (idx_val : Z) (items : list pyval)
    (i : nat) : result (option nat) :=
  match items with
  | [] => Ok None
  | item :: items' =>
      (a <~ py_get item "task_id" PNone ;;
       hit <~ (if py_eq a (PStr task_id) then
                 b <~ py_get item "idx" PNone ;; Ok (py_eq b (PInt idx_val))
               else Ok false) ;;
       if hit : bool then Ok (Some i)
       else find_replace task_id idx_val items' (S i))%py
  end.

(** One round of the outer loop: build the entry, replace or append. *)
Definition merge_write (task_id task_path : string) (now_ts : Z)
    (existing_items : pyval) (idx : Z) (w : string * pyval) : result pyval :=
  (let '(channel, value) := w in
   let idx_val := writes_idx channel idx in
   let '(type_, serialized) := dumps_typed value in
   let new_item :=
     PDict [("task_id", PStr task_id);
            ("task_path", PStr task_path);
            ("channel", PStr channel);
            ("idx", PInt idx_val);
            ("type", PStr type_);
            ("value", PBytes serialized);
            ("ts", PInt now_ts)] in
   its <~ py_iter existing_items ;;
   replace_at <~ find_replace task_id idx_val its 0 ;;
   match replace_at with
   | Some i => py_setitem existing_items i new_item
   | None => py_append existing_items new_item
   end)%py.

(** The outer [for idx, (channel, value) in enumerate(writes)] loop,
    from position [idx] on; [existing_items] is updated in place. *)
Fixpoint merge_writes (task_id task_path : string) (now_ts : Z)
    (existing_items : pyval) (idx : Z) (writes : list (string * pyval))
    : result pyval :=
  match writes with
  | [] => Ok existing_items
  | w :: writes' =>
      (existing_items <~ merge_write task_id task_path now_ts existing_items idx w ;;
       merge_writes task_id task_path now_ts existing_items (idx + 1) writes')%py
  end.

Definition put_writes (config : pyval) (writes : list (string * pyval))
    (task_id : string) (task_path : string) : M unit :=
  match writes with
  | [] => ret tt
  | _ =>
      (ids <- lift (_ids_from_config config) ;;
       let '(thread_id, checkpoint_ns, checkpoint_id) := ids in
       if negb (py_truthy checkpoint_id) then ret tt
       else
         let k := _key_writes thread_id checkpoint_ns checkpoint_id in
         existing_rec <- _get k ;;
         let existing_items :=
           match existing_rec with
           | None => PList []
           | Some (_, _, b) => default PNone (b !! "writes")
           end in
         now_ts <- _now_ns ;;
         existing_items <- lift (merge_writes task_id task_path now_ts
                                   existing_items 0 writes) ;;
         _put k (list_to_map [("writes", existing_items)]))%M
  end.

(** *** get_tuple *)

(** The body of the [try] for one ledger entry; [KeyError] skips it. *)
Definition read_pending_item (item : pyval) : result (option (pyval * pyval * pyval)) :=
  match (task_id <~ py_get item "task_id" (PStr EmptyString) ;;
         channel <~ py_getitem item "channel" ;;
         type_ <~ py_getitem item "type" ;;
         serialized <~ py_getitem item "value" ;;
         value <~ loads_typed type_ serialized ;;
         Ok (task_id, channel, value))%py with
  | Ok x => Ok (Some x)
  | Raise (KeyError _) => Ok None
  | Raise e => Raise e
  end.

Fixpoint read_pending (items : list pyval) : result (list (pyval * pyval * pyval)) :=
  match items with
  | [] => Ok []
  | item :: items' =>
      (x <~ read_pending_item item ;;
       xs <~ read_pending items' ;;
       Ok (match x with Some p => p :: xs | None => xs end))%py
  end.

Definition scope_config (thread_id checkpoint_ns checkpoint_id : pyval) : pyval :=
  PDict [("configurable",
          PDict [("thread_id", thread_id);
                 ("checkpoint_ns", checkpoint_ns);
                 ("checkpoint_id", checkpoint_id)])].

Definition get_tuple (config : pyval) : M (option CheckpointTuple.t) :=
  (ids <- lift (_ids_from_config config) ;;
   let '(thread_id, checkpoint_ns, checkpoint_id) := ids in
   resolved <-
     (if py_is_none checkpoint_id then
        latest <- _get (_key_latest thread_id checkpoint_ns) ;;
        match latest with
        | None => ret None
        | Some (_, _, b) =>
            match b !! "checkpoint_id" with
            | None => ret None
            | Some cid => ret (Some cid)
            end
        end
      else ret (Some checkpoint_id)) ;;
   match resolved with
   | None => ret None
   | Some checkpoint_id =>
       got <- _get (_key_cp thread_id checkpoint_ns checkpoint_id) ;;
       match got with
       | None => ret None
       | Some (_, _, b) =>
           let cp_type := default PNone (b !! "cp_type") in
           let raw_cp := default PNone (b !! "checkpoint") in
           let raw_meta := default PNone (b !! "metadata") in
           let meta_type := default PNone (b !! "meta_type") in
           if py_is_none cp_type || py_is_none raw_cp then ret None
           else
             match loads_typed cp_type raw_cp with
             | Raise _ => ret None
             | Ok checkpoint =>
                 if py_is_none meta_type || py_is_none raw_meta then ret None
                 else
                   match loads_typed meta_type raw_meta with
                   | Raise _ => ret None
                   | Ok metadata =>
                       wrec <- _get (_key_writes thread_id checkpoint_ns checkpoint_id) ;;
                       pending_writes <-
                         match wrec with
                         | None => ret []
                         | Some (_, _, wbins) =>
                             let items := py_or (default PNone (wbins !! "writes")) (PList []) in
                             lift (its <~ py_iter items ;; read_pending its)%py
                         end ;;
                       let parent := default PNone (b !! "p_checkpoint_id") in
                       ret (Some
                              (CheckpointTuple.mk
                                 (scope_config thread_id checkpoint_ns checkpoint_id)
                                 checkpoint
                                 metadata
                                 (if py_truthy parent
                                  then Some (scope_config thread_id checkpoint_ns parent)
                                  else None)
                                 pending_writes))
                   end
             end
       end
   end)%M.

(** *** list *)

(** What [list] does before its first [yield]: resolve the scope, read
    the timeline, cut it at [before]. *)
Definition list_items (config : pyval) (before : pyval)
    : M (pyval * pyval * list (pyval * pyval)) :=
  (ids <- lift (_ids_from_config (py_or config (PDict []))) ;;
   let '(thread_id, checkpoint_ns, _) := ids in
   let timeline_key := _key_timeline thread_id checkpoint_ns in
   items <- _read_timeline_items timeline_key ;;
   before_id <-
     (if negb (py_is_none before) then
        bids <- lift (_ids_from_config (py_or before (PDict []))) ;;
        ret (snd bids)
      else ret PNone) ;;
   let items :=
     if py_truthy before_id then before_loop before_id items false else items in
   ret (thread_id, checkpoint_ns, items))%M.

(** The generator loop run to its end: the tuples yielded, in order,
    and the exception that ended the iteration, if one did. *)
Fixpoint list_loop (thread_id checkpoint_ns : pyval) (flt : option pydict)
    (limit : option Z) (items : list (pyval * pyval)) (yielded : Z) (w : world)
    : list CheckpointTuple.t * option exn * world :=
  match items with
  | [] => ([], None, w)
  | (_, cid) :: items' =>
      if match limit with Some n => yielded >=? n | None => false end
      then ([], None, w)
      else
        match get_tuple (scope_config thread_id checkpoint_ns cid) w with
        | (Raise e, w') => ([], Some e, w')
        | (Ok None, w') =>
            list_loop thread_id checkpoint_ns flt limit items' yielded w'
        | (Ok (Some tpl), w') =>
            match (match flt with
                   | Some (kv :: f) => filter_ok (kv :: f) (CheckpointTuple.metadata tpl)
                   | _ => Ok true
                   end) with
            | Raise e => ([], Some e, w')
            | Ok false =>
                list_loop thread_id checkpoint_ns flt limit items' yielded w'
            | Ok true =>
                let '(ys, err, w'') :=
                  list_loop thread_id checkpoint_ns flt limit items' (yielded + 1) w' in
                (tpl :: ys, err, w'')
            end
        end
  end.

Definition list_ (config : pyval) (flt : option pydict) (before : pyval)
    (limit : option Z) (w : world) : list CheckpointTuple.t * option exn * world :=
  match list_items config before w with
  | (Raise e, w') => ([], Some e, w')
  | (Ok (thread_id, checkpoint_ns, items), w') =>
      list_loop thread_id checkpoint_ns flt limit items 0 w'
  end.
End Saver.

(** ** A concrete instance of the collaborators

    One codec serves as serializer and as [json]: a value is laid out as a
    tree, the tree numbered, and the number written in binary.  It stands
    in for the real ones wherever a theorem is run on concrete input. *)

Module Toy.

Abbreviation tree := (gen_tree (Z + string + string)).

Fixpoint enc (v : pyval) : tree :=
  match v with
  | PNone => GenNode 0 []
  | PBool true => GenNode 1 []
  | PBool false => GenNode 2 []
  | PInt z => GenLeaf (inl (inl z))
  | PStr s => GenLeaf (inl (inr s))
  | PBytes b => GenLeaf (inr b)
  | PList l => GenNode 3 (map enc l)
  | PDict d =>
      GenNode 4
        ((fix go (d : pydict) : list tree :=
            match d with
            | [] => []
            | (k, x) :: d' => GenLeaf (inl (inr k)) :: enc x :: go d'
            end) d)
  end.

Fixpoint dec (t : tree) : pyval :=
  match t with
  | GenLeaf (inl (inl z)) => PInt z
  | GenLeaf (inl (inr s)) => PStr s
  | GenLeaf (inr b) => PBytes b
  | GenNode 1 _ => PBool true
  | GenNode 2 _ => PBool false
  | GenNode 3 l => PList (map dec l)
  | GenNode 4 l =>
      PDict
        ((fix go (l : list tree) : pydict :=
            match l with
            | GenLeaf (inl (inr k)) :: x :: l' => (k, dec x) :: go l'
            | _ => []
            end) l)
  | GenNode _ _ => PNone
  end.

Fixpoint pos_to_bits (p : positive) : string :=
  match p with
  | xH => EmptyString
  | xO p' => String "0"%char (pos_to_bits p')
  | xI p' => String "1"%char (pos_to_bits p')
  end.

Fixpoint bits_to_pos (s : string) : positive :=
  match s with
  | EmptyString => xH
  | String a s' =>
      if Ascii.eqb a "1"%char then xI (bits_to_pos s') else xO (bits_to_pos s')
  end.

Definition text (v : pyval) : string := pos_to_bits (encode (enc v)).

Definition parse (s : string) : option pyval :=
  dec <$> decode (bits_to_pos s).

#[export] Instance externals : Externals := {|
  py_str v := match v with PStr s => s | _ => EmptyString end;
  dumps_typed v := ("toy"%string, text v);
  loads_typed t b :=
    match t, b with
    | PStr _, PBytes s =>
        match parse s with
        | Some v => Ok v
        | None => Raise (ValueError "undecodable payload")
        end
    | _, _ => Raise TypeError
    end;
  json_dumps v := if is_json v then Some (text v) else None;
  json_loads s :=
    match parse s with
    | Some v => if is_json v then Some v else None
    | None => None
    end;
  WRITES_IDX_MAP :=
    [("__error__"%string, -1); ("__scheduled__"%string, -2);
     ("__interrupt__"%string, -3); ("__resume__"%string, -4)];
|}.

(** A backend with no record, no fault, and a clock that counts. *)
Definition world0 : world :=
  {| records := ∅; io_count := 0; io_fault := fun _ => false;
     clock_count := 0; clock := fun n => 1000 + Z.of_nat n |}.

End Toy.

(** ** Concrete inputs *)

Module Sample.
Import Toy.

(** A saver with the default sets and a timeline of two entries. *)
Definition saver : AerospikeSaver :=
  __init__ "test" "lg_cp" "lg_cp_w" "lg_cp_meta" None 2.

Definition thread : pyval := PStr "t1".
Definition namespace : pyval := PStr EmptyString.

(** [{"configurable": {"thread_id": "t1"}}] *)
Definition config : pyval :=
  PDict [("configurable"%string, PDict [("thread_id"%string, PStr "t1")])].

Definition cp (c : string) (x : Z) : pydict :=
  [("id"%string, PStr c); ("x"%string, PInt x)].

(** A checkpoint that carries its own timestamp. *)
Definition cp_at (c : string) (ts : Z) : pydict :=
  [("id"%string, PStr c); ("ts"%string, PInt ts)].

Definition run {A} (m : M A) (w : world) : world := snd (m w).

Definition world1 : world := run (put saver config (cp "c1" 1) [] PNone) world0.
Definition world2 : world := run (put saver config (cp "c2" 2) [] PNone) world1.

(** The config of checkpoint [c] in the scope. *)
Definition config_at (c : string) : pyval := scope_config thread namespace (PStr c).

(** The empty backend whose [j]-th call fails. *)
Definition world_fault (j : nat) : world :=
  {| records := ∅; io_count := 0; io_fault := fun n => Nat.eqb n j;
     clock_count := 0; clock := fun n => 1000 + Z.of_nat n |}.

(** A ledger record for [c1] that has no [writes] bin. *)
Definition stray_bins : bins := {[ "note"%string := PInt 1 ]}.

Definition world_stray : world :=
  set_records {[ _key_writes saver thread namespace (PStr "c1") := stray_bins ]} world0.

(** The tuple of [c1] as [world1] has it: no metadata. *)
Definition tuple1 : CheckpointTuple.t :=
  CheckpointTuple.mk (config_at "c1")
    (PDict [("id"%string, PStr "c1"); ("x"%string, PInt 1); ("ts"%string, PInt 1000)])
    (PDict []) None [].

End Sample.

(** ** Vocabulary of the statements *)

(** No client call fails. *)
Definition fault_free (w : world) : Prop := ∀ n, io_fault w n = false.

(** The world after a successful [client.put]. *)
Definition wrote (k : key) (b : bins) (w : world) : world :=
  tick_io (set_records (<[k := b ∪ default ∅ (records w !! k)]> (records w)) w).

Definition tick_clock (w : world) : world :=
  {| records := records w; io_count := io_count w; io_fault := io_fault w;
     clock_count := S (clock_count w); clock := clock w |}.

(** A checkpoint id the saver accepts and the key layout reserves no
    meaning for. *)
Definition valid_checkpoint_id (c : string) : Prop :=
  c ≠ EmptyString ∧ c ≠ "__latest__"%string ∧ c ≠ "__timeline__"%string.

(** The ids of a timeline, newest first. *)
Definition timeline_ids (items : list (pyval * pyval)) : list pyval :=
  map snd items.

(** Entries as [put] writes them and [_read_timeline_items] returns them:
    a JSON timestamp and a string id. *)
Definition wf_item (it : pyval * pyval) : Prop :=
  is_json (fst it) = true ∧ ∃ c, snd it = PStr c.

Section Observations.
Context `{E : Externals} (self : AerospikeSaver).

(** The timeline of a scope as [_read_timeline_items] finds it in the
    records. *)
Definition timeline (thread_id checkpoint_ns : pyval) (w : world)
    : list (pyval * pyval) :=
  match records w !! _key_timeline self thread_id checkpoint_ns with
  | None => []
  | Some b => parse_timeline b
  end.

(** A sequence of [put] calls, each with its config, checkpoint and
    metadata; stops at the first exception. *)
Fixpoint put_all (calls : list (pyval * pydict * pydict)) : M unit :=
  match calls with
  | [] => ret tt
  | (config, cp, md) :: calls' =>
      (put self config cp md PNone ;;; put_all calls')%M
  end.

End Observations.

(** The checkpoint id a [put] call carries. *)
Definition call_id (call : pyval * pydict * pydict) : pyval :=
  default PNone (dict_lookup "id" (snd (fst call))).

(** What [put] needs of its arguments to store checkpoint [c] in scope
    ([t], [n]): the config names the scope, its metadata entry is a dict
    when present, and the checkpoint carries the id and a timestamp that
    [json] can write, if any. *)
Definition put_ok_input (t n : pyval) (config : pyval) (cp : pydict) (c : string) : Prop :=
  (∃ parent, _ids_from_config config = Ok (t, n, parent)) ∧
  (∃ extra, py_get config "metadata" (PDict []) = Ok (PDict extra)) ∧
  dict_lookup "id" cp = Some (PStr c) ∧
  valid_checkpoint_id c ∧
  is_json (default PNone (dict_lookup "ts" cp)) = true.

(** *** What one [put] leaves behind *)

(** The timestamp [put] uses: the checkpoint's own, else the clock's. *)
Definition stamp_ts (cp : pydict) (w : world) : pyval :=
  let ts := default PNone (dict_lookup "ts" cp) in
  if py_is_none ts then PInt (clock w (clock_count w)) else ts.

Definition stamp_cp (cp : pydict) (w : world) : pydict :=
  let ts := default PNone (dict_lookup "ts" cp) in
  if py_is_none ts then dict_set "ts" (PInt (clock w (clock_count w))) cp else cp.

Definition stamp_world (cp : pydict) (w : world) : world :=
  let ts := default PNone (dict_lookup "ts" cp) in
  if py_is_none ts then tick_clock w else w.

(** The timeline update of [put]: drop the id, put it first, cut at the cap. *)
Definition timeline_step (cap : Z) (ts cid : pyval) (items : list (pyval * pyval))
    : list (pyval * pyval) :=
  let items := List.filter (fun it => negb (py_eq (snd it) cid)) items in
  let items := (ts, cid) :: items in
  if Z.of_nat (length items) >? cap then py_slice_to cap items else items.

Section PutWorld.
Context `{E : Externals} (self : AerospikeSaver).

Definition checkpoint_bins (t n parent cid ts : pyval) (cp md : pydict) : bins :=
  list_to_map
    [("thread_id"%string, t);
     ("checkpoint_ns"%string, n);
     ("checkpoint_id"%string, cid);
     ("p_checkpoint_id"%string, parent);
     ("cp_type"%string, PStr (fst (dumps_typed (PDict cp))));
     ("checkpoint"%string, PBytes (snd (dumps_typed (PDict cp))));
     ("meta_type"%string, PStr (fst (dumps_typed (PDict md))));
     ("metadata"%string, PBytes (snd (dumps_typed (PDict md))));
     ("ts"%string, ts)].

Definition latest_bins (cid ts : pyval) : bins :=
  list_to_map [("checkpoint_id"%string, cid); ("ts"%string, ts)].

Definition timeline_bins (text : string) : bins :=
  list_to_map [("items"%string, PStr text)].

(** The world after the three writes of a successful [put] whose
    timeline was dumped as [text]. *)
Definition put_world (t n parent cid : pyval) (cp md : pydict) (text : string)
    (w : world) : world :=
  let ts := stamp_ts cp w in
  wrote (_key_timeline self t n) (timeline_bins text)
    (tick_io
       (wrote (_key_latest self t n) (latest_bins cid ts)
          (wrote (_key_cp self t n cid)
             (checkpoint_bins t n parent cid ts (stamp_cp cp w) md)
             (stamp_world cp w)))).

End PutWorld.

(** *** The write-set ledger *)

Definition is_dict (v : pyval) : bool :=
  match v with PDict _ => true | _ => false end.

(** The test of the inner scan of [put_writes] on one stored entry. *)
Definition entry_matches (task_id : string) (idx : Z) (item : pyval) : bool :=
  match py_get item "task_id" PNone, py_get item "idx" PNone with
  | Ok a, Ok b => py_eq a (PStr task_id) && py_eq b (PInt idx)
  | _, _ => false
  end.

(** Replace the first entry that matches, else append. *)
Fixpoint upsert (m : pyval → bool) (new : pyval) (l : list pyval) : list pyval :=
  match l with
  | [] => [new]
  | x :: l' => if m x then new :: l' else x :: upsert m new l'
  end.

Section LedgerVocabulary.
Context `{E : Externals} (self : AerospikeSaver).

(** The entry [put_writes] builds for one write. *)
Definition new_entry (task_id task_path : string) (now_ts : Z)
    (channel : string) (idx_val : Z) (value : pyval) : pyval :=
  PDict [("task_id"%string, PStr task_id);
         ("task_path"%string, PStr task_path);
         ("channel"%string, PStr channel);
         ("idx"%string, PInt idx_val);
         ("type"%string, PStr (fst (dumps_typed value)));
         ("value"%string, PBytes (snd (dumps_typed value)));
         ("ts"%string, PInt now_ts)].

(** The ledger after the writes of one call, the first of them at
    position [idx]. *)
Fixpoint upsert_all (task_id task_path : string) (now_ts : Z) (l : list pyval)
    (idx : Z) (writes : list (string * pyval)) : list pyval :=
  match writes with
  | [] => l
  | (channel, value) :: writes' =>
      let idx_val := writes_idx channel idx in
      upsert_all task_id task_path now_ts
        (upsert (entry_matches task_id idx_val)
           (new_entry task_id task_path now_ts channel idx_val value) l)
        (idx + 1) writes'
  end.

(** The entries of a checkpoint's ledger when it is absent (none) or a
    list of dicts; [None] for any other content. *)
Definition ledger_entries (t n cid : pyval) (w : world) : option (list pyval) :=
  match records w !! _key_writes self t n cid with
  | None => Some []
  | Some b =>
      match b !! "writes"%string with
      | Some (PList l) => if forallb is_dict l then Some l else None
      | _ => None
      end
  end.

(** The id [get_tuple] resolves in world [w] for a config whose own
    checkpoint id is [cid0]. *)
Definition resolves (t n cid0 cid : pyval) (w : world) : Prop :=
  if py_is_none cid0
  then ∃ bl, records w !! _key_latest self t n = Some bl ∧
             bl !! "checkpoint_id"%string = Some cid
  else cid = cid0.

End LedgerVocabulary.

(** *** Sequences of puts and listing *)

(** A [put] call with good input for scope ([t], [n]). *)
Definition call_ok (t n : pyval) (call : pyval * pydict * pydict) : Prop :=
  ∃ c, put_ok_input t n (fst (fst call)) (snd (fst call)) c.

(** [tpl.config["configurable"]["checkpoint_id"]] *)
Definition tuple_id (tpl : CheckpointTuple.t) : pyval :=
  match (c <~ py_get (CheckpointTuple.config tpl) "configurable" PNone ;;
         py_get c "checkpoint_id" PNone)%py with
  | Ok cid => cid
  | Raise _ => PNone
  end.

(** The entries strictly after the first one whose id equals [x]. *)
Fixpoint after_first (x : pyval) (items : list (pyval * pyval)) : list (pyval * pyval) :=
  match items with
  | [] => []
  | it :: items' => if py_eq (snd it) x then items' else after_first x items'
  end.

(** What the filter lets through. *)
Definition passes (flt : option pydict) (tpl : CheckpointTuple.t) : Prop :=
  match flt with
  | Some (kv :: f) => filter_ok (kv :: f) (CheckpointTuple.metadata tpl) = Ok true
  | _ => True
  end.

(** *** Reads, keys and pending writes *)

(** A computation that leaves the records of the backend as they are. *)
Definition readonly {A} (m : M A) : Prop :=
  ∀ w, records (snd (m w)) = records w.

(** No separator character in the string. *)
Fixpoint sep_free (s : string) : bool :=
  match s with
  | EmptyString => true
  | String a s' => negb (Ascii.eqb a "|"%char) && sep_free s'
  end.

Section PendingVocabulary.
Context `{E : Externals} (self : AerospikeSaver).

(** The pending writes [get_tuple] reads for a checkpoint from the
    records of [w]. *)
Definition stored_pending (t n cid : pyval) (w : world)
    : result (list (pyval * pyval * pyval)) :=
  match records w !! _key_writes self t n cid with
  | None => Ok []
  | Some wb =>
      (its <~ py_iter (py_or (default PNone (wb !! "writes"%string)) (PList [])) ;;
       read_pending its)%py
  end.

(** The parent reference [get_tuple] builds from a checkpoint record. *)
Definition parent_of (t n : pyval) (b : bins) : option pyval :=
  let parent := default PNone (b !! "p_checkpoint_id"%string) in
  if py_truthy parent then Some (scope_config t n parent) else None.

End PendingVocabulary.

(** The config [put] returns for config [config], scope ([t], [n]) and
    checkpoint id [cid]. *)
Definition put_result (config t n cid : pyval) : pyval :=
  match config with
  | PDict d =>
      match py_or (default PNone (dict_lookup "configurable" d)) (PDict []) with
      | PDict cd =>
          PDict (dict_set "configurable"
                   (PDict (dict_update cd
                             [("thread_id"%string, t);
                              ("checkpoint_ns"%string, n);
                              ("checkpoint_id"%string, cid)])) d)
      | _ => PNone
      end
  | _ => PNone
  end.

Section TupleVocabulary.
Context `{E : Externals}.

(** The answer of [get_tuple] for checkpoint [cid] as a function of the
    checkpoint record and of the pending writes read for it. *)
Definition tuple_from (t n cid : pyval) (rec : option bins)
    (pending : result (list (pyval * pyval * pyval)))
    : result (option CheckpointTuple.t) :=
  match rec with
  | None => Ok None
  | Some b =>
      let cp_type := default PNone (b !! "cp_type"%string) in
      let raw_cp := default PNone (b !! "checkpoint"%string) in
      let raw_meta := default PNone (b !! "metadata"%string) in
      let meta_type := default PNone (b !! "meta_type"%string) in
      if py_is_none cp_type || py_is_none raw_cp then Ok None
      else
        match loads_typed cp_type raw_cp with
        | Raise _ => Ok None
        | Ok checkpoint =>
            if py_is_none meta_type || py_is_none raw_meta then Ok None
            else
              match loads_typed meta_type raw_meta with
              | Raise _ => Ok None
              | Ok metadata =>
                  match pending with
                  | Raise e => Raise e
                  | Ok pw =>
                      Ok (Some (CheckpointTuple.mk (scope_config t n cid)
                                  checkpoint metadata (parent_of t n b) pw))
                  end
              end
        end
  end.

End TupleVocabulary.

(** An entry of the ledger that belongs to task [task_id]. *)
Definition entry_of_task (task_id : string) (item : pyval) : bool :=
  match py_get item "task_id" PNone with
  | Ok a => py_eq a (PStr task_id)
  | Raise _ => false
  end.

Section NewEntries.
Context `{E : Externals}.

(** The entries [put_writes] builds for the writes of one call, the
    first at position [idx], when no channel is in the table. *)
Fixpoint new_entries (task_id task_path : string) (now_ts : Z) (idx : Z)
    (writes : list (string * pyval)) : list pyval :=
  match writes with
  | [] => []
  | (channel, value) :: writes' =>
      new_entry task_id task_path now_ts channel idx value
      :: new_entries task_id task_path now_ts (idx + 1) writes'
  end.

End NewEntries.

(** The pending writes [get_tuple] reports for the writes of a task. *)
Definition pending_of (task_id : string) (writes : list (string * pyval))
    : list (pyval * pyval * pyval) :=
  map (λ wr, (PStr task_id, PStr (fst wr), snd wr)) writes.

(** A tuple with other pending writes. *)
Definition with_pending (tpl : CheckpointTuple.t) (pw : list (pyval * pyval * pyval))
    : CheckpointTuple.t :=
  CheckpointTuple.mk (CheckpointTuple.config tpl) (CheckpointTuple.checkpoint tpl)
    (CheckpointTuple.metadata tpl) (CheckpointTuple.parent_config tpl) pw.

(** Backends holding a record the saver did not write itself. *)
Module Handmade.
Import Toy Sample.

(** [world1] with the ledger of [c1] set to the entries [l]. *)
Definition world_ledger (l : list pyval) : world :=
  set_records
    (<[ _key_writes saver thread namespace (PStr "c1")
        := {[ "writes"%string := PList l ]} ]> (records world1))
    world1.

(** The empty backend with a timeline record whose [items] bin is [v]. *)
Definition world_items (v : pyval) : world :=
  set_records
    {[ _key_timeline saver thread namespace := {[ "items"%string := v ]} ]}
    world0.

(** An entry with a channel and nothing else. *)
Definition partial_entry : pyval := PDict [("channel"%string, PStr "a")].

(** An entry whose payload is an integer, which the codec refuses. *)
Definition undecodable_entry : pyval :=
  PDict [("task_id"%string, PStr "t"); ("channel"%string, PStr "a");
         ("type"%string, PStr "toy"); ("value"%string, PInt 3)].

End Handmade.

(** ** Running the monad *)

Lemma bind_ok {A B} (m : M A) (f : A → M B) w a w' :
  m w = (Ok a, w') → bind m f w = f a w'.
Proof. intros H. unfold bind. now rewrite H. Qed.

Lemma bind_raise {A B} (m : M A) (f : A → M B) w e w' :
  m w = (Raise e, w') → bind m f w = (Raise e, w').
Proof. intros H. unfold bind. now rewrite H. Qed.

Lemma fault_free_tick_io w : fault_free w → fault_free (tick_io w).
Proof. intros H n. apply H. Qed.

Lemma fault_free_tick_clock w : fault_free w → fault_free (tick_clock w).
Proof. intros H n. apply H. Qed.

Lemma fault_free_wrote k b w : fault_free w → fault_free (wrote k b w).
Proof. intros H n. apply H. Qed.

Lemma now_ns_run w : _now_ns w = (Ok (clock w (clock_count w)), tick_clock w).
Proof. reflexivity. Qed.

Section Run.
Context `{E : Externals} (self : AerospikeSaver).

Lemma _put_ok k b w :
  fault_free w → _put self k b w = (Ok tt, wrote k b w).
Proof.
  intros Hff. unfold _put, try_except, client_put.
  now rewrite Hff.
Qed.

Lemma _put_fault k b w :
  io_fault w (io_count w) = true →
  _put self k b w = (Raise (RuntimeError OpPut k), tick_io w).
Proof.
  intros Hf. unfold _put, try_except, client_put.
  now rewrite Hf.
Qed.

Lemma _put_nofault k b w :
  io_fault w (io_count w) = false → _put self k b w = (Ok tt, wrote k b w).
Proof.
  intros Hf. unfold _put, try_except, client_put.
  now rewrite Hf.
Qed.

Lemma _get_nofault k w :
  io_fault w (io_count w) = false →
  _get k w = (Ok ((λ b, (k, tt, b)) <$> records w !! k), tick_io w).
Proof.
  intros Hf. unfold _get, try_except, bind, client_get, ret.
  rewrite Hf. now destruct (records w !! k).
Qed.

Lemma _get_ok k w :
  fault_free w →
  _get k w = (Ok ((λ b, (k, tt, b)) <$> records w !! k), tick_io w).
Proof. intros Hff. apply _get_nofault, Hff. Qed.

Lemma _get_fault k w :
  io_fault w (io_count w) = true →
  _get k w = (Raise (RuntimeError OpGet k), tick_io w).
Proof.
  intros Hf. unfold _get, try_except, bind, client_get.
  now rewrite Hf.
Qed.

Lemma _read_timeline_items_nofault t n w :
  io_fault w (io_count w) = false →
  _read_timeline_items (_key_timeline self t n) w
  = (Ok (timeline self t n w), tick_io w).
Proof.
  intros Hf. unfold _read_timeline_items, timeline.
  rewrite (bind_ok _ _ _ _ _ (_get_nofault _ _ Hf)).
  now destruct (records w !! _key_timeline self t n).
Qed.

End Run.

(** ** Keys *)

Lemma append_cancel (s a b : string) : s +:+ a = s +:+ b → a = b.
Proof.
  induction s as [|ch s IH]; simpl; [easy|].
  intros H. injection H as H. now apply IH.
Qed.

Section Keys.
Context `{E : Externals} (self : AerospikeSaver).

Lemma user_key_inj t n a b : user_key t n a = user_key t n b → a = b.
Proof.
  unfold user_key. intros H.
  now do 4 apply append_cancel in H.
Qed.

Lemma key_latest_timeline t n : _key_latest self t n ≠ _key_timeline self t n.
Proof.
  unfold _key_latest, _key_timeline. intros H.
  injection H as H. apply user_key_inj in H. discriminate H.
Qed.

Lemma key_cp_latest t n c :
  py_str c ≠ "__latest__"%string → _key_cp self t n c ≠ _key_latest self t n.
Proof.
  unfold _key_cp, _key_latest. intros Hc H.
  injection H as _ H. now apply user_key_inj in H.
Qed.

Lemma key_cp_timeline t n c :
  py_str c ≠ "__timeline__"%string → _key_cp self t n c ≠ _key_timeline self t n.
Proof.
  unfold _key_cp, _key_timeline. intros Hc H.
  injection H as _ H. now apply user_key_inj in H.
Qed.

Lemma key_writes_latest t n c :
  py_str c ≠ "__latest__"%string → _key_writes self t n c ≠ _key_latest self t n.
Proof.
  unfold _key_writes, _key_latest. intros Hc H.
  injection H as _ H. now apply user_key_inj in H.
Qed.

Lemma key_writes_timeline t n c :
  py_str c ≠ "__timeline__"%string → _key_writes self t n c ≠ _key_timeline self t n.
Proof.
  unfold _key_writes, _key_timeline. intros Hc H.
  injection H as _ H. now apply user_key_inj in H.
Qed.

Lemma key_cp_inj t n a b :
  _key_cp self t n a = _key_cp self t n b → py_str a = py_str b.
Proof.
  unfold _key_cp. intros H. injection H as H. now apply user_key_inj in H.
Qed.

Lemma key_writes_cp t n a b :
  _key_writes self t n a = _key_cp self t n b → py_str a = py_str b.
Proof.
  unfold _key_writes, _key_cp. intros H. injection H as _ H.
  now apply user_key_inj in H.
Qed.

End Keys.

(** ** Records after a write *)

Lemma records_wrote k b w k' :
  records (wrote k b w) !! k'
  = if decide (k = k') then Some (b ∪ default ∅ (records w !! k))
    else records w !! k'.
Proof.
  unfold wrote. simpl. rewrite lookup_insert. now destruct (decide (k = k')).
Qed.

Lemma records_wrote_eq k b w :
  records (wrote k b w) !! k = Some (b ∪ default ∅ (records w !! k)).
Proof. rewrite records_wrote. now rewrite decide_True. Qed.

Lemma records_wrote_ne k b w k' :
  k ≠ k' → records (wrote k b w) !! k' = records w !! k'.
Proof. intros H. rewrite records_wrote. now rewrite decide_False. Qed.

Lemma bins_written (b old : bins) (x : string) v :
  b !! x = Some v → (b ∪ old) !! x = Some v.
Proof. intros H. now apply lookup_union_Some_l. Qed.

Lemma bins_kept (b old : bins) (x : string) :
  b !! x = None → (b ∪ old) !! x = old !! x.
Proof. intros H. now apply lookup_union_r. Qed.

(** ** Reading the timeline *)

Lemma clean_items_to_json items :
  Forall wf_item items →
  omap clean_item (map (λ it, PList [fst it; snd it]) items) = items.
Proof.
  induction 1 as [|[t c] items [_ [s Hs]] _ IH]; [easy|].
  simpl in Hs. subst c. cbn. f_equal. exact IH.
Qed.

Lemma clean_item_wf l :
  forallb is_json l = true → Forall wf_item (omap clean_item l).
Proof.
  induction l as [|it l IH]; simpl; [constructor|].
  intros [Hit Hl]%andb_true_iff. specialize (IH Hl).
  destruct it as [| | | | |[|t [|[| | |c| | |] [|]]]|]; simpl; try exact IH.
  constructor; [|exact IH].
  split; [|now exists c].
  simpl in Hit. now apply andb_true_iff in Hit as [Ht _].
Qed.

Lemma chars_of_json s : forallb is_json (chars_of s) = true.
Proof. induction s; simpl; auto. Qed.

Lemma octets_of_json s : forallb is_json (octets_of s) = true.
Proof. induction s; simpl; auto. Qed.

Section Timeline.
Context `{E : Externals} (L : ExternalsLaws E).

Lemma parse_timeline_wf (b : bins) : Forall wf_item (parse_timeline b).
Proof.
  unfold parse_timeline, json_loads_py.
  destruct (default (PStr "[]") (b !! "items"%string)); simpl; try constructor.
  - destruct (json_loads s) as [v|] eqn:Hv; simpl; [|constructor].
    apply (json_loads_json _ L) in Hv.
    destruct v; simpl; try constructor.
    + apply clean_item_wf, chars_of_json.
    + discriminate Hv.
    + now apply clean_item_wf.
    + apply clean_item_wf. clear Hv. induction d; simpl; auto.
  - destruct (json_loads b0) as [v|] eqn:Hv; simpl; [|constructor].
    apply (json_loads_json _ L) in Hv.
    destruct v; simpl; try constructor.
    + apply clean_item_wf, chars_of_json.
    + discriminate Hv.
    + now apply clean_item_wf.
    + apply clean_item_wf. clear Hv. induction d; simpl; auto.
Qed.

Lemma parse_timeline_written (b : bins) s items :
  b !! "items"%string = Some (PStr s) →
  json_loads s = Some (items_to_json items) →
  Forall wf_item items →
  parse_timeline b = items.
Proof.
  intros Hb Hs Hwf. unfold parse_timeline, json_loads_py.
  rewrite Hb. simpl. rewrite Hs. simpl.
  now rewrite clean_items_to_json.
Qed.

Lemma items_to_json_is_json items :
  Forall wf_item items → is_json (items_to_json items) = true.
Proof.
  induction 1 as [|[t c] items [Ht [s Hs]] _ IH]; [easy|].
  simpl in *. subst c. simpl. rewrite Ht. simpl. exact IH.
Qed.

End Timeline.

Lemma Forall_list_filter {A} (P : A → Prop) (f : A → bool) l :
  Forall P l → Forall P (List.filter f l).
Proof.
  induction 1 as [|x l Hx _ IH]; simpl; [constructor|].
  destruct (f x); [now constructor|exact IH].
Qed.

Lemma Forall_py_slice_to {A} (P : A → Prop) n l :
  Forall P l → Forall P (py_slice_to n l).
Proof.
  intros H. unfold py_slice_to. destruct (0 <=? n); now apply Forall_take.
Qed.

Lemma timeline_step_wf cap ts c items :
  is_json ts = true → Forall wf_item items →
  Forall wf_item (timeline_step cap ts (PStr c) items).
Proof.
  intros Hts Hitems. unfold timeline_step.
  assert (Hl : Forall wf_item
                 ((ts, PStr c)
                  :: List.filter (λ it, negb (py_eq (snd it) (PStr c))) items)).
  { constructor; [split; [exact Hts|now exists c]|].
    now apply Forall_list_filter. }
  destruct (_ >? _); [|exact Hl]. now apply Forall_py_slice_to.
Qed.

Section TimelineObs.
Context `{E : Externals} (L : ExternalsLaws E) (self : AerospikeSaver).

Lemma timeline_wf t n w : Forall wf_item (timeline self t n w).
Proof.
  unfold timeline. destruct (records w !! _); [|constructor].
  apply (parse_timeline_wf L).
Qed.

Lemma timeline_wrote_ne t n k b w :
  k ≠ _key_timeline self t n →
  timeline self t n (wrote k b w) = timeline self t n w.
Proof.
  intros Hk. unfold timeline. now rewrite records_wrote_ne.
Qed.

Lemma timeline_stamp_world t n cp w :
  timeline self t n (stamp_world cp w) = timeline self t n w.
Proof. unfold stamp_world. now destruct (py_is_none _). Qed.

Lemma timeline_written t n text items w :
  json_loads text = Some (items_to_json items) →
  Forall wf_item items →
  timeline self t n (wrote (_key_timeline self t n) (timeline_bins text) w) = items.
Proof.
  intros Hl Hwf. unfold timeline. rewrite records_wrote_eq.
  apply (parse_timeline_written _ text); [|exact Hl|exact Hwf].
  apply bins_written. reflexivity.
Qed.

End TimelineObs.

Lemma stamp_ts_json cp w :
  is_json (default PNone (dict_lookup "ts" cp)) = true →
  is_json (stamp_ts cp w) = true.
Proof.
  intros H. unfold stamp_ts. now destruct (py_is_none _).
Qed.

(** ** One put *)

Lemma ids_configurable d ids :
  _ids_from_config (PDict d) = Ok ids →
  ∃ cd, py_or (default PNone (dict_lookup "configurable" d)) (PDict []) = PDict cd.
Proof.
  unfold _ids_from_config.
  destruct d as [|kv d]; [now exists []|].
  unfold py_or at 1. cbn [py_truthy py_get rbind].
  destruct (dict_lookup "configurable" (kv :: d)) as [v|]; [|now exists []].
  cbn [default from_option id].
  unfold py_or. destruct (py_truthy v) eqn:Hv; [|now exists []].
  intros H. destruct v; try discriminate H. now eexists.
Qed.

Section PutRun.
Context `{E : Externals} (L : ExternalsLaws E) (self : AerospikeSaver).

Lemma put_run config cp md nv w t n parent c extra :
  fault_free w →
  _ids_from_config config = Ok (t, n, parent) →
  dict_lookup "id" cp = Some (PStr c) →
  c ≠ EmptyString →
  _key_cp self t n (PStr c) ≠ _key_timeline self t n →
  is_json (default PNone (dict_lookup "ts" cp)) = true →
  py_get config "metadata" (PDict []) = Ok (PDict extra) →
  let items :=
    timeline_step (timeline_max self) (stamp_ts cp w) (PStr c) (timeline self t n w) in
  ∃ text cfg',
    json_loads text = Some (items_to_json items) ∧
    put self config cp md nv w
    = (Ok cfg', put_world self t n parent (PStr c) cp (dict_update md extra) text w).
Proof.
  intros Hff Hids Hid Hc Hk Hts Hmd items.
  assert (Hwf : Forall wf_item items).
  { apply timeline_step_wf; [now apply stamp_ts_json|apply (timeline_wf L)]. }
  destruct (json_roundtrip _ L _ (items_to_json_is_json _ Hwf)) as (text & Hd & Hl).
  exists text.
  unfold put.
  unfold bind at 1. unfold lift at 1. rewrite Hids.
  rewrite Hid. cbn [default from_option id py_truthy negb].
  assert (Hne : String.eqb c EmptyString = false) by now apply String.eqb_neq.
  rewrite Hne. cbn [negb].
  assert (Hst : (if py_is_none (default PNone (dict_lookup "ts" cp))
          then (now <- _now_ns;; ret (PInt now, dict_set "ts" (PInt now) cp))%M
          else ret (default PNone (dict_lookup "ts" cp), cp)) w
          = (Ok (stamp_ts cp w, stamp_cp cp w), stamp_world cp w)).
  { unfold stamp_ts, stamp_cp, stamp_world. now destruct (py_is_none _). }
  rewrite (bind_ok _ _ _ _ _ Hst). clear Hst.
  assert (Hff1 : fault_free (stamp_world cp w)).
  { unfold stamp_world. destruct (py_is_none _); [now apply fault_free_tick_clock|easy]. }
  unfold put_world, checkpoint_bins.
  destruct (dumps_typed (PDict (stamp_cp cp w))) as [cp_type cp_bytes].
  unfold bind at 1. unfold lift at 1. rewrite Hmd.
  unfold bind at 1. unfold lift at 1. cbn [py_dict].
  destruct (dumps_typed (PDict (dict_update md extra))) as [meta_type meta_bytes].
  cbn [fst snd].
  rewrite (bind_ok _ _ _ _ _ (_put_ok self _ _ _ Hff1)).
  match goal with |- context [wrote ?k ?b ?w] => set (w1 := wrote k b w) end.
  assert (Hff2 : fault_free w1) by now apply fault_free_wrote.
  rewrite (bind_ok _ _ _ _ _ (_put_ok self _ _ _ Hff2)).
  fold (latest_bins (PStr c) (stamp_ts cp w)).
  set (w2 := wrote _ (latest_bins _ _) w1).
  assert (Hff3 : fault_free w2) by now apply fault_free_wrote.
  rewrite (bind_ok _ _ _ _ _ (_read_timeline_items_nofault self _ _ _ (Hff3 _))).
  assert (Htl : timeline self t n w2 = timeline self t n w).
  { subst w2 w1.
    rewrite timeline_wrote_ne by apply key_latest_timeline.
    rewrite timeline_wrote_ne by exact Hk.
    apply timeline_stamp_world. }
  rewrite Htl.
  match goal with |- context [json_dumps (items_to_json ?x)] => change x with items end.
  unfold bind at 1. unfold lift at 1. rewrite Hd.
  rewrite (bind_ok _ _ _ _ _ (_put_ok self _ _ _ (fault_free_tick_io _ Hff3))).
  fold (timeline_bins text).
  destruct config as [| | | | | |d]; try discriminate Hmd.
  destruct (ids_configurable _ _ Hids) as [cd Hcd].
  unfold bind, lift. cbn [py_dict py_get]. rewrite Hcd.
  eexists. split; [exact Hl|]. reflexivity.
Qed.

End PutRun.

(** ** The timeline update *)

Lemma py_eq_str x c : (∃ a, x = PStr a) → py_eq x (PStr c) = true ↔ x = PStr c.
Proof.
  intros [a ->]. simpl. rewrite String.eqb_eq. split; congruence.
Qed.

Lemma timeline_ids_filter cid items :
  timeline_ids (List.filter (λ it, negb (py_eq (snd it) cid)) items)
  = List.filter (λ x, negb (py_eq x cid)) (timeline_ids items).
Proof.
  unfold timeline_ids. induction items as [|[t c] items IH]; simpl; [easy|].
  destruct (negb (py_eq c cid)); simpl; now rewrite IH.
Qed.

(** The update, in the words of the data model: remove the id, prepend
    it, keep the first [cap] entries. *)
Lemma timeline_step_take cap ts cid items :
  1 ≤ cap →
  timeline_step cap ts cid items
  = take (Z.to_nat cap)
      ((ts, cid) :: List.filter (λ it, negb (py_eq (snd it) cid)) items).
Proof.
  intros Hcap. unfold timeline_step.
  destruct (_ >? cap) eqn:Hlen.
  - unfold py_slice_to. now rewrite (proj2 (Z.leb_le 0 cap)) by lia.
  - rewrite take_ge; [easy|]. rewrite Z.gtb_ltb in Hlen. apply Z.ltb_ge in Hlen. lia.
Qed.

Lemma timeline_step_ids cap ts cid items :
  1 ≤ cap →
  timeline_ids (timeline_step cap ts cid items)
  = take (Z.to_nat cap)
      (cid :: List.filter (λ x, negb (py_eq x cid)) (timeline_ids items)).
Proof.
  intros Hcap. rewrite timeline_step_take by exact Hcap.
  unfold timeline_ids at 1. rewrite fmap_take. simpl.
  now rewrite <- timeline_ids_filter.
Qed.

Lemma timeline_step_length cap ts cid items :
  1 ≤ cap → (length (timeline_step cap ts cid items) ≤ Z.to_nat cap)%nat.
Proof.
  intros Hcap. rewrite timeline_step_take by exact Hcap.
  rewrite length_take. lia.
Qed.

Lemma filter_absent (c : string) (ids : list pyval) :
  Forall (λ x, ∃ a, x = PStr a) ids → PStr c ∉ ids →
  List.filter (λ x, negb (py_eq x (PStr c))) ids = ids.
Proof.
  induction 1 as [|x ids Hx _ IH]; [easy|].
  intros Hnot. apply not_elem_of_cons in Hnot as [Hne Hnot].
  simpl. destruct (py_eq x (PStr c)) eqn:Heq.
  - apply py_eq_str in Heq; [congruence|exact Hx].
  - simpl. now rewrite IH.
Qed.

Lemma filter_removes (c : string) (ids : list pyval) :
  Forall (λ x, ∃ a, x = PStr a) ids →
  PStr c ∉ List.filter (λ x, negb (py_eq x (PStr c))) ids.
Proof.
  induction 1 as [|x ids Hx _ IH]; simpl; [apply not_elem_of_nil|].
  destruct (py_eq x (PStr c)) eqn:Heq; simpl; [exact IH|].
  apply not_elem_of_cons. split; [|exact IH].
  intros Hxc. subst x. simpl in Heq. now rewrite String.eqb_refl in Heq.
Qed.

Lemma NoDup_list_filter {A} (f : A → bool) (l : list A) :
  NoDup l → NoDup (List.filter f l).
Proof.
  induction 1 as [|x l Hx _ IH]; simpl; [constructor|].
  destruct (f x); [|exact IH].
  constructor; [|exact IH].
  intros Hin. apply Hx. apply list_elem_of_In in Hin.
  apply filter_In in Hin as [Hin _]. now apply list_elem_of_In.
Qed.

Lemma timeline_ids_wf items :
  Forall wf_item items → Forall (λ x, ∃ a, x = PStr a) (timeline_ids items).
Proof.
  unfold timeline_ids. induction 1 as [|it items [_ Hit] _ IH]; simpl; now constructor.
Qed.

(** With distinct ids, [cap] entries survive: the newest ones. *)
Lemma take_cons_take {A} (m : nat) (x : A) l :
  (1 ≤ m)%nat → take m (x :: take m l) = take m (x :: l).
Proof.
  intros Hm. destruct m as [|m]; [lia|]. simpl. f_equal.
  rewrite take_take. f_equal. lia.
Qed.

Section PutTimeline.
Context `{E : Externals} (L : ExternalsLaws E) (self : AerospikeSaver).

Lemma valid_id_keys t n c :
  valid_checkpoint_id c →
  _key_cp self t n (PStr c) ≠ _key_latest self t n ∧
  _key_cp self t n (PStr c) ≠ _key_timeline self t n ∧
  _key_writes self t n (PStr c) ≠ _key_latest self t n ∧
  _key_writes self t n (PStr c) ≠ _key_timeline self t n.
Proof.
  intros (_ & Hl & Ht).
  repeat split;
    [apply key_cp_latest|apply key_cp_timeline
    |apply key_writes_latest|apply key_writes_timeline];
    now rewrite (py_str_str _ L).
Qed.

(** A fault-free [put] with good input returns, and the timeline it
    leaves is the update of the one it found. *)
Lemma put_timeline config cp md nv w t n c :
  fault_free w →
  put_ok_input t n config cp c →
  ∃ cfg' w',
    put self config cp md nv w = (Ok cfg', w') ∧
    fault_free w' ∧
    timeline self t n w'
    = timeline_step (timeline_max self) (stamp_ts cp w) (PStr c) (timeline self t n w).
Proof.
  intros Hff ([parent Hids] & [extra Hmd] & Hid & Hvalid & Hts).
  destruct (valid_id_keys t n c Hvalid) as (_ & Hk & _).
  destruct (put_run L self config cp md nv w t n parent c extra
              Hff Hids Hid (proj1 Hvalid) Hk Hts Hmd) as (text & cfg' & Hl & Hput).
  exists cfg'. eexists. split; [exact Hput|]. split.
  - unfold put_world, stamp_world.
    repeat first [apply fault_free_wrote | apply fault_free_tick_io].
    destruct (py_is_none _); [now apply fault_free_tick_clock|exact Hff].
  - unfold put_world. apply timeline_written; [exact Hl|].
    apply timeline_step_wf; [now apply stamp_ts_json|apply (timeline_wf L)].
Qed.

(** C3.  A [put] of checkpoint id [c] leaves the timeline without the
    entries it had for [c] and with [c] at the head: [c] occurs once, and
    a timeline free of duplicate ids stays free of them.  This holds
    whether or not [c] was in the timeline before. *)
Theorem put_moves_id_to_head config cp md nv w t n c :
  1 ≤ timeline_max self →
  fault_free w →
  put_ok_input t n config cp c →
  ∃ cfg' w',
    put self config cp md nv w = (Ok cfg', w') ∧
    let before := timeline_ids (timeline self t n w) in
    let after := timeline_ids (timeline self t n w') in
    after = take (Z.to_nat (timeline_max self))
              (PStr c :: List.filter (λ x, negb (py_eq x (PStr c))) before) ∧
    (∃ rest, after = PStr c :: rest ∧ PStr c ∉ rest) ∧
    (NoDup before → NoDup after).
Proof.
  intros Hcap Hff Hin.
  destruct (put_timeline config cp md nv w t n c Hff Hin) as (cfg' & w' & Hput & _ & Htl).
  exists cfg', w'. split; [exact Hput|]. cbn zeta.
  rewrite Htl, timeline_step_ids by exact Hcap.
  pose proof (timeline_ids_wf _ (timeline_wf L self t n w)) as Hwf.
  set (ids := timeline_ids (timeline self t n w)) in *.
  split; [reflexivity|].
  destruct (Z.to_nat (timeline_max self)) as [|m] eqn:Hm; [lia|].
  rewrite firstn_cons. split.
  - eexists. split; [reflexivity|].
    intros Hin'. apply (filter_removes c ids Hwf).
    eapply elem_of_sublist; [exact Hin'|apply sublist_take].
  - intros Hnd. constructor.
    + intros Hin'. apply (filter_removes c ids Hwf).
      eapply elem_of_sublist; [exact Hin'|apply sublist_take].
    + eapply sublist_NoDup; [|apply sublist_take].
      now apply NoDup_list_filter.
Qed.

End PutTimeline.

Section PutSequence.
Context `{E : Externals} (L : ExternalsLaws E) (self : AerospikeSaver).


Lemma put_all_run t n calls :
  1 ≤ timeline_max self →
  Forall (call_ok t n) calls →
  ∀ w, fault_free w →
  ∃ w',
    put_all self calls w = (Ok tt, w') ∧
    fault_free w' ∧
    (calls ≠ [] ∨ (length (timeline self t n w) ≤ Z.to_nat (timeline_max self))%nat →
     (length (timeline self t n w') ≤ Z.to_nat (timeline_max self))%nat) ∧
    (∀ done,
       timeline_ids (timeline self t n w)
       = take (Z.to_nat (timeline_max self)) (rev done) →
       NoDup (done ++ map call_id calls) →
       timeline_ids (timeline self t n w')
       = take (Z.to_nat (timeline_max self)) (rev (done ++ map call_id calls))).
Proof.
  intros Hcap. induction 1 as [|[[config cp] md] calls [c Hc] _ IH]; intros w Hff.
  - exists w. split; [reflexivity|]. split; [exact Hff|]. split.
    + intros [H|H]; [easy|exact H].
    + intros done Hids _. simpl. now rewrite app_nil_r.
  - simpl in Hc.
    destruct (put_timeline L self config cp md PNone w t n c Hff Hc)
      as (cfg' & w1 & Hput & Hff1 & Htl).
    destruct (IH w1 Hff1) as (w' & Hrun & Hff' & Hlen & Hids).
    exists w'. split; [|split; [exact Hff'|split]].
    + cbn [put_all]. now rewrite (bind_ok _ _ _ _ _ Hput).
    + intros _. apply Hlen. right. rewrite Htl.
      now apply timeline_step_length.
    + intros done Hdone Hnd.
      assert (Hcid : call_id (config, cp, md) = PStr c).
      { unfold call_id. simpl. destruct Hc as (_ & _ & -> & _). reflexivity. }
      cbn [map] in *. rewrite Hcid in *.
      rewrite cons_middle, app_assoc. apply Hids.
      * rewrite Htl, timeline_step_ids by exact Hcap.
        pose proof (timeline_ids_wf _ (timeline_wf L self t n w)) as Hwf.
        rewrite filter_absent; [|exact Hwf|].
        -- rewrite Hdone, take_cons_take by lia. now rewrite rev_unit.
        -- rewrite Hdone. intros Hin.
           assert (Hin' : PStr c ∈ rev done).
           { eapply elem_of_sublist; [exact Hin|apply sublist_take]. }
           assert (Hin'' : PStr c ∈ done).
           { apply list_elem_of_In, (proj2 (in_rev done (PStr c))).
             now apply list_elem_of_In. }
           apply list.NoDup_app in Hnd as (_ & Hdisj & _).
           apply (Hdisj _ Hin''). left.
      * now rewrite <- app_assoc, <- cons_middle.
Qed.

(** C2.  After a non-empty sequence of [put] calls on a scope its
    timeline has at most [timeline_max] entries.  Started on an empty
    timeline with pairwise distinct ids, the ids left are the
    [timeline_max] newest, newest first; with more calls than the cap
    that is exactly [timeline_max] entries. *)
Theorem timeline_bounded t n calls w :
  1 ≤ timeline_max self →
  fault_free w →
  Forall (call_ok t n) calls →
  ∃ w',
    put_all self calls w = (Ok tt, w') ∧
    (calls ≠ [] →
     (length (timeline self t n w') ≤ Z.to_nat (timeline_max self))%nat) ∧
    (timeline self t n w = [] → NoDup (map call_id calls) →
     timeline_ids (timeline self t n w')
     = take (Z.to_nat (timeline_max self)) (rev (map call_id calls)) ∧
     (timeline_max self < Z.of_nat (length calls) →
      length (timeline self t n w') = Z.to_nat (timeline_max self))).
Proof.
  intros Hcap Hff Hcalls.
  destruct (put_all_run t n calls Hcap Hcalls w Hff) as (w' & Hrun & _ & Hlen & Hids).
  exists w'. split; [exact Hrun|]. split; [intros H; apply Hlen; now left|].
  intros Hempty Hnd.
  assert (Hafter : timeline_ids (timeline self t n w')
                   = take (Z.to_nat (timeline_max self)) (rev (map call_id calls))).
  { apply (Hids []); [|exact Hnd]. rewrite Hempty. simpl. now rewrite take_nil. }
  split; [exact Hafter|]. intros Hmany.
  apply (f_equal length) in Hafter.
  unfold timeline_ids in Hafter.
  rewrite length_map, length_take, length_rev, length_map in Hafter. lia.
Qed.

End PutSequence.

(** ** The concrete collaborators obey the laws *)

Lemma pyval_nested_ind (P : pyval → Prop) :
  P PNone →
  (∀ b, P (PBool b)) →
  (∀ z, P (PInt z)) →
  (∀ s, P (PStr s)) →
  (∀ b, P (PBytes b)) →
  (∀ l, Forall P l → P (PList l)) →
  (∀ d, Forall (λ kv, P (snd kv)) d → P (PDict d)) →
  ∀ v, P v.
Proof.
  intros HN HB HI HS HY HL HD.
  fix IH 1. intros [|b|z|s|b|l|d];
    [exact HN|apply HB|apply HI|apply HS|apply HY| |].
  - apply HL. induction l as [|x l IHl]; constructor; [apply IH|exact IHl].
  - apply HD. induction d as [|[k x] d IHd]; constructor; [apply IH|exact IHd].
Qed.

Module ToyLaws.
Import Toy.

Lemma bits_roundtrip p : bits_to_pos (pos_to_bits p) = p.
Proof. induction p; simpl; congruence. Qed.

Lemma dec_enc v : dec (enc v) = v.
Proof.
  induction v as [| [|] | | | |l IH|d IH] using pyval_nested_ind; try reflexivity.
  - simpl. f_equal. induction IH as [|x l Hx _ IHl]; simpl; congruence.
  - simpl. f_equal. induction IH as [|[k x] d Hx _ IHd]; simpl in *; congruence.
Qed.

Lemma parse_text v : parse (text v) = Some v.
Proof.
  unfold parse, text. rewrite bits_roundtrip, decode_encode. simpl.
  now rewrite dec_enc.
Qed.

Lemma laws : ExternalsLaws externals.
Proof.
  split.
  - reflexivity.
  - intros v t b [= <- <-]. simpl. now rewrite parse_text.
  - intros v Hv. exists (text v). simpl. rewrite Hv, parse_text, Hv. easy.
  - intros s v. simpl. destruct (parse s) as [x|]; [|easy].
    destruct (is_json x) eqn:Hx; [|easy]. now intros [= <-].
Qed.

Lemma world0_fault_free : fault_free world0.
Proof. intros n. reflexivity. Qed.

End ToyLaws.


(** ** Reading a checkpoint back *)

Lemma records_stamp_world cp w : records (stamp_world cp w) = records w.
Proof. unfold stamp_world. now destruct (py_is_none _). Qed.

Section GetTuple.
Context `{E : Externals} (self : AerospikeSaver).

(** The id [get_tuple] works with: the one given, else the latest
    pointer's. *)
Lemma get_tuple_found config w t n cid0 cid b cpv mdv :
  fault_free w →
  _ids_from_config config = Ok (t, n, cid0) →
  (if py_is_none cid0
   then ∃ bl, records w !! _key_latest self t n = Some bl ∧
              bl !! "checkpoint_id"%string = Some cid
   else cid = cid0) →
  records w !! _key_cp self t n cid = Some b →
  (∃ ty raw, b !! "cp_type"%string = Some ty ∧ b !! "checkpoint"%string = Some raw ∧
             py_is_none ty = false ∧ py_is_none raw = false ∧
             loads_typed ty raw = Ok cpv) →
  (∃ ty raw, b !! "meta_type"%string = Some ty ∧ b !! "metadata"%string = Some raw ∧
             py_is_none ty = false ∧ py_is_none raw = false ∧
             loads_typed ty raw = Ok mdv) →
  (match records w !! _key_writes self t n cid with
   | None => True
   | Some wb => wb !! "writes"%string = None
   end) →
  ∃ tpl w',
    get_tuple self config w = (Ok (Some tpl), w') ∧
    CheckpointTuple.config tpl = scope_config t n cid ∧
    CheckpointTuple.checkpoint tpl = cpv ∧
    CheckpointTuple.metadata tpl = mdv ∧
    CheckpointTuple.pending_writes tpl = [].
Proof.
  intros Hff Hids Hres Hb (cty & craw & Hct & Hcr & Hctn & Hcrn & Hcl)
    (mty & mraw & Hmt & Hmr & Hmtn & Hmrn & Hml) Hw.
  unfold get_tuple.
  unfold bind at 1. unfold lift at 1. rewrite Hids.
  assert (Hresolve : ∃ w1, fault_free w1 ∧ records w1 = records w ∧
            (if py_is_none cid0
             then (latest <- _get (_key_latest self t n);;
                   match latest with
                   | Some (_, _, b0) =>
                       match b0 !! "checkpoint_id"%string with
                       | Some cid1 => ret (Some cid1)
                       | None => ret None
                       end
                   | None => ret None
                   end)%M
             else ret (Some cid0)) w = (Ok (Some cid), w1)).
  { destruct (py_is_none cid0).
    - destruct Hres as (bl & Hbl & Hcid). exists (tick_io w).
      split; [now apply fault_free_tick_io|]. split; [reflexivity|].
      rewrite (bind_ok _ _ _ _ _ (_get_ok _ _ Hff)). rewrite Hbl. simpl.
      now rewrite Hcid.
    - subst cid0. now exists w. }
  destruct Hresolve as (w1 & Hff1 & Hr1 & Hrun1).
  rewrite (bind_ok _ _ _ _ _ Hrun1).
  rewrite (bind_ok _ _ _ _ _ (_get_ok _ _ Hff1)). rewrite Hr1, Hb. simpl.
  rewrite Hct, Hcr, Hmt, Hmr. simpl. rewrite Hctn, Hcrn, Hmtn, Hmrn. simpl.
  rewrite Hcl, Hml.
  rewrite (bind_ok _ _ _ _ _ (_get_ok _ _ (fault_free_tick_io _ Hff1))).
  simpl records. rewrite Hr1.
  destruct (records w !! _key_writes self t n cid) as [wb|]; simpl.
  - rewrite Hw. simpl. unfold bind, lift, ret. simpl. eexists _, _. repeat split.
  - unfold bind, lift, ret. simpl. eexists _, _. repeat split.
Qed.

End GetTuple.

(** ** The latest pointer *)

Section Latest.
Context `{E : Externals} (L : ExternalsLaws E) (self : AerospikeSaver).

Lemma put_world_other t n parent cid cp md text w k :
  k ≠ _key_timeline self t n → k ≠ _key_latest self t n →
  k ≠ _key_cp self t n cid →
  records (put_world self t n parent cid cp md text w) !! k = records w !! k.
Proof.
  intros H1 H2 H3. unfold put_world.
  rewrite records_wrote_ne by congruence. cbn [records tick_io].
  rewrite records_wrote_ne by congruence.
  rewrite records_wrote_ne by congruence.
  now rewrite records_stamp_world.
Qed.

Lemma put_world_cp t n parent cid cp md text w :
  _key_cp self t n cid ≠ _key_timeline self t n →
  _key_cp self t n cid ≠ _key_latest self t n →
  records (put_world self t n parent cid cp md text w) !! _key_cp self t n cid
  = Some (checkpoint_bins t n parent cid (stamp_ts cp w) (stamp_cp cp w) md
          ∪ default ∅ (records w !! _key_cp self t n cid)).
Proof.
  intros H1 H2. unfold put_world.
  rewrite records_wrote_ne by congruence. cbn [records tick_io].
  rewrite records_wrote_ne by congruence.
  now rewrite records_wrote_eq, records_stamp_world.
Qed.

Lemma put_world_latest t n parent cid cp md text w :
  ∃ bl, records (put_world self t n parent cid cp md text w) !! _key_latest self t n
        = Some bl ∧
        bl !! "checkpoint_id"%string = Some cid.
Proof.
  unfold put_world.
  rewrite records_wrote_ne by (intros H; symmetry in H; now apply key_latest_timeline in H).
  cbn [records tick_io]. rewrite records_wrote_eq.
  eexists. split; [reflexivity|]. now apply bins_written.
Qed.

(** C1.  After [put] of checkpoint [A] and then [put] of checkpoint [B]
    in one scope, [get_tuple] without a checkpoint id returns [B]: its
    config names [B] and its checkpoint is the one stored for [B].
    Nothing is assumed of the two timestamps, so an older one on [B]
    changes nothing: the pointer is overwritten by the last [put]. *)
Theorem latest_is_last_put cfgA cpA mdA nvA cfgB cpB mdB nvB cfg w t n A B :
  fault_free w →
  put_ok_input t n cfgA cpA A →
  put_ok_input t n cfgB cpB B →
  A ≠ B →
  _ids_from_config cfg = Ok (t, n, PNone) →
  records w !! _key_writes self t n (PStr B) = None →
  ∃ cfgA' w1 cfgB' w2 tpl w3,
    put self cfgA cpA mdA nvA w = (Ok cfgA', w1) ∧
    put self cfgB cpB mdB nvB w1 = (Ok cfgB', w2) ∧
    get_tuple self cfg w2 = (Ok (Some tpl), w3) ∧
    CheckpointTuple.config tpl = scope_config t n (PStr B) ∧
    CheckpointTuple.checkpoint tpl = PDict (stamp_cp cpB w1).
Proof.
  intros Hff HA HB HAB Hcfg Hled.
  pose proof HA as ([pA HidsA] & [eA HmdA] & HidA & HvA & HtsA).
  pose proof HB as ([pB HidsB] & [eB HmdB] & HidB & HvB & HtsB).
  destruct (valid_id_keys L self t n A HvA) as (HA1 & HA2 & HA3 & HA4).
  destruct (valid_id_keys L self t n B HvB) as (HB1 & HB2 & HB3 & HB4).
  destruct (put_run L self cfgA cpA mdA nvA w t n pA A eA
              Hff HidsA HidA (proj1 HvA) HA2 HtsA HmdA) as (textA & cfgA' & _ & HputA).
  set (w1 := put_world self t n pA (PStr A) cpA (dict_update mdA eA) textA w) in *.
  assert (Hff1 : fault_free w1).
  { destruct (put_timeline L self cfgA cpA mdA nvA w t n A Hff HA)
      as (c' & w' & Hp & Hf & _).
    rewrite HputA in Hp. now injection Hp as _ <-. }
  destruct (put_run L self cfgB cpB mdB nvB w1 t n pB B eB
              Hff1 HidsB HidB (proj1 HvB) HB2 HtsB HmdB) as (textB & cfgB' & _ & HputB).
  set (w2 := put_world self t n pB (PStr B) cpB (dict_update mdB eB) textB w1) in *.
  assert (Hff2 : fault_free w2).
  { destruct (put_timeline L self cfgB cpB mdB nvB w1 t n B Hff1 HB)
      as (c' & w' & Hp & Hf & _).
    rewrite HputB in Hp. now injection Hp as _ <-. }
  destruct (get_tuple_found self cfg w2 t n PNone (PStr B)
              (checkpoint_bins t n pB (PStr B) (stamp_ts cpB w1) (stamp_cp cpB w1)
                 (dict_update mdB eB)
               ∪ default ∅ (records w1 !! _key_cp self t n (PStr B)))
              (PDict (stamp_cp cpB w1)) (PDict (dict_update mdB eB)))
    as (tpl & w3 & Hget & Hc & Hcp & _).
  - exact Hff2.
  - exact Hcfg.
  - simpl. apply put_world_latest.
  - now apply put_world_cp.
  - eexists _, _. split; [apply bins_written; reflexivity|].
    split; [apply bins_written; reflexivity|].
    split; [reflexivity|]. split; [reflexivity|].
    apply (serde_roundtrip _ L). apply surjective_pairing.
  - eexists _, _. split; [apply bins_written; reflexivity|].
    split; [apply bins_written; reflexivity|].
    split; [reflexivity|]. split; [reflexivity|].
    apply (serde_roundtrip _ L). apply surjective_pairing.
  - assert (Hw1 : records w1 !! _key_writes self t n (PStr B) = None).
    { subst w1. rewrite put_world_other; [exact Hled|exact HB4|exact HB3|].
      intros Heq. apply key_writes_cp in Heq.
      rewrite !(py_str_str _ L) in Heq. congruence. }
    destruct (decide (_key_writes self t n (PStr B) = _key_cp self t n (PStr B))) as [Heq|Hne].
    + rewrite Heq. subst w2. rewrite put_world_cp by assumption.
      rewrite <- Heq, Hw1. simpl. now apply bins_kept.
    + subst w2. rewrite put_world_other by assumption. now rewrite Hw1.
  - exists cfgA', w1, cfgB', w2, tpl, w3. auto.
Qed.

End Latest.

(** ** Reads that find nothing *)

Section GetAbsent.
Context `{E : Externals} (self : AerospikeSaver).


(** C6.  [get_tuple] returns [None], and raises nothing, when no
    checkpoint id is given and there is no latest pointer record; when
    the record of the resolved checkpoint is missing; when decoding the
    checkpoint payload raises; and when decoding the metadata payload
    raises, whatever the exception. *)
Theorem get_tuple_absent config w t n cid0 :
  fault_free w →
  _ids_from_config config = Ok (t, n, cid0) →
  (cid0 = PNone ∧ records w !! _key_latest self t n = None) ∨
  (∃ cid, resolves self t n cid0 cid w ∧
          (records w !! _key_cp self t n cid = None ∨
           ∃ b, records w !! _key_cp self t n cid = Some b ∧
                ((∃ e, loads_typed (default PNone (b !! "cp_type"%string))
                         (default PNone (b !! "checkpoint"%string)) = Raise e) ∨
                 (∃ e, loads_typed (default PNone (b !! "meta_type"%string))
                         (default PNone (b !! "metadata"%string)) = Raise e)))) →
  ∃ w', get_tuple self config w = (Ok None, w').
Proof.
  intros Hff Hids Hcase.
  unfold get_tuple.
  unfold bind at 1. unfold lift at 1. rewrite Hids.
  destruct Hcase as [[-> Hlat]|(cid & Hres & Hcase)].
  - cbn [py_is_none].
    match goal with
    | |- context [bind ?m _ w] =>
        assert (H1 : m w = (Ok None, tick_io w))
    end.
    { rewrite (bind_ok _ _ _ _ _ (_get_ok _ _ Hff)), Hlat. reflexivity. }
    rewrite (bind_ok _ _ _ _ _ H1). now eexists.
  - assert (Hresolve : ∃ w1, fault_free w1 ∧ records w1 = records w ∧
            (if py_is_none cid0
             then (latest <- _get (_key_latest self t n);;
                   match latest with
                   | Some (_, _, b0) =>
                       match b0 !! "checkpoint_id"%string with
                       | Some cid1 => ret (Some cid1)
                       | None => ret None
                       end
                   | None => ret None
                   end)%M
             else ret (Some cid0)) w = (Ok (Some cid), w1)).
    { unfold resolves in Hres. destruct (py_is_none cid0).
      - destruct Hres as (bl & Hbl & Hcid). exists (tick_io w).
        split; [now apply fault_free_tick_io|]. split; [reflexivity|].
        rewrite (bind_ok _ _ _ _ _ (_get_ok _ _ Hff)). rewrite Hbl. simpl.
        now rewrite Hcid.
      - subst cid0. now exists w. }
    destruct Hresolve as (w1 & Hff1 & Hr1 & Hrun1).
    rewrite (bind_ok _ _ _ _ _ Hrun1).
    rewrite (bind_ok _ _ _ _ _ (_get_ok _ _ Hff1)). rewrite Hr1.
    destruct Hcase as [Hnone|(b & Hb & Hdec)].
    + rewrite Hnone. simpl. now eexists.
    + rewrite Hb. simpl.
      destruct (py_is_none _ || py_is_none _); [now eexists|].
      destruct Hdec as [[e He]|[e He]].
      * rewrite He. now eexists.
      * destruct (loads_typed (default PNone (b !! "cp_type"%string)) _);
          [|now eexists].
        destruct (py_is_none _ || py_is_none _); [now eexists|].
        rewrite He. now eexists.
Qed.

End GetAbsent.

(** ** The write-set ledger *)

Section Ledger.
Context `{E : Externals} (self : AerospikeSaver).

Lemma find_replace_upsert task_id idx_val new l :
  forallb is_dict l = true →
  ∀ i, match find_replace task_id idx_val l i with
       | Ok (Some j) =>
           ∃ k, j = (i + k)%nat ∧ (k < length l)%nat ∧
                <[k := new]> l = upsert (entry_matches task_id idx_val) new l
       | Ok None => l ++ [new] = upsert (entry_matches task_id idx_val) new l
       | Raise _ => False
       end.
Proof.
  induction l as [|x l IH]; intros Hd i; [reflexivity|].
  simpl in Hd. apply andb_true_iff in Hd as [Hx Hl].
  destruct x as [| | | | | |d]; try discriminate Hx.
  cbn [find_replace upsert]. unfold entry_matches. cbn [py_get rbind].
  destruct (py_eq (default PNone (dict_lookup "task_id" d)) (PStr task_id)); cbn [rbind andb].
  - destruct (py_eq (default PNone (dict_lookup "idx" d)) (PInt idx_val)).
    + exists 0%nat. split; [lia|]. split; [simpl; lia|reflexivity].
    + specialize (IH Hl (S i)).
      destruct (find_replace task_id idx_val l (S i)) as [[j|]|]; [| |easy].
      * destruct IH as (k & -> & Hk & Hup). exists (S k).
        split; [lia|]. split; [simpl; lia|]. simpl. now rewrite Hup.
      * simpl. now rewrite IH.
  - specialize (IH Hl (S i)).
    destruct (find_replace task_id idx_val l (S i)) as [[j|]|]; [| |easy].
    + destruct IH as (k & -> & Hk & Hup). exists (S k).
      split; [lia|]. split; [simpl; lia|]. simpl. now rewrite Hup.
    + simpl. now rewrite IH.
Qed.

Lemma upsert_dicts m new l :
  is_dict new = true → forallb is_dict l = true →
  forallb is_dict (upsert m new l) = true.
Proof.
  intros Hn. induction l as [|x l IH]; simpl; [now rewrite Hn|].
  intros [Hx Hl]%andb_true_iff.
  destruct (m x); simpl; [now rewrite Hn|]. now rewrite Hx, IH.
Qed.

Lemma merge_write_upsert task_id task_path now_ts l idx channel value :
  forallb is_dict l = true →
  merge_write task_id task_path now_ts (PList l) idx (channel, value)
  = Ok (PList (upsert (entry_matches task_id (writes_idx channel idx))
                 (new_entry task_id task_path now_ts channel
                    (writes_idx channel idx) value) l)).
Proof.
  intros Hd. unfold merge_write, new_entry.
  destruct (dumps_typed value) as [ty ser]. cbn [fst snd py_iter rbind].
  match goal with
  | |- context [py_setitem _ _ ?new] =>
      pose proof (find_replace_upsert task_id (writes_idx channel idx) new l Hd 0%nat) as H
  end.
  destruct (find_replace _ _ l 0) as [[j|]|]; [| |easy].
  - destruct H as (k & -> & _ & Hup). simpl. now rewrite Hup.
  - simpl. now rewrite H.
Qed.

Lemma merge_writes_upsert_all task_id task_path now_ts writes :
  ∀ l idx,
    forallb is_dict l = true →
    merge_writes task_id task_path now_ts (PList l) idx writes
    = Ok (PList (upsert_all task_id task_path now_ts l idx writes)).
Proof.
  induction writes as [|[channel value] writes IH]; intros l idx Hd; [reflexivity|].
  cbn [merge_writes upsert_all]. rewrite merge_write_upsert by exact Hd.
  cbn [rbind]. apply IH. now apply upsert_dicts.
Qed.

End Ledger.

Section LedgerRun.
Context `{E : Externals} (self : AerospikeSaver).

Lemma upsert_all_dicts task_id task_path now_ts writes :
  ∀ l idx, forallb is_dict l = true →
           forallb is_dict (upsert_all task_id task_path now_ts l idx writes) = true.
Proof.
  induction writes as [|[channel value] writes IH]; intros l idx Hd; [exact Hd|].
  cbn [upsert_all]. apply IH. now apply upsert_dicts.
Qed.

(** A fault-free [put_writes] on an absent or well-formed ledger stores
    the merged entries. *)
Lemma put_writes_run config writes task_id task_path w t n cid l :
  fault_free w →
  writes ≠ [] →
  _ids_from_config config = Ok (t, n, cid) →
  py_truthy cid = true →
  ledger_entries self t n cid w = Some l →
  ∃ w',
    put_writes self config writes task_id task_path w = (Ok tt, w') ∧
    fault_free w' ∧
    ledger_entries self t n cid w'
    = Some (upsert_all task_id task_path (clock w (clock_count w)) l 0 writes) ∧
    clock_count w' = S (clock_count w) ∧
    clock w' = clock w.
Proof.
  intros Hff Hne Hids Hcid Hled.
  destruct writes as [|wr writes]; [easy|].
  unfold put_writes.
  unfold bind at 1. unfold lift at 1. rewrite Hids. rewrite Hcid. cbn [negb].
  rewrite (bind_ok _ _ _ _ _ (_get_ok _ _ Hff)).
  assert (Hex : match (λ b, (_key_writes self t n cid, (), b)) <$>
                      records w !! _key_writes self t n cid with
                | Some (_, _, b) => default PNone (b !! "writes"%string)
                | None => PList []
                end = PList l ∧ forallb is_dict l = true).
  { unfold ledger_entries in Hled.
    destruct (records w !! _key_writes self t n cid) as [b|]; simpl.
    - destruct (b !! "writes"%string) as [[| | | | |l'|]|]; try discriminate Hled.
      destruct (forallb is_dict l') eqn:Hd; [|discriminate Hled].
      injection Hled as <-. easy.
    - injection Hled as <-. easy. }
  destruct Hex as [-> Hd].
  rewrite (bind_ok _ _ _ _ _ (now_ns_run _)).
  unfold bind at 1. unfold lift at 1.
  rewrite (merge_writes_upsert_all task_id task_path _ (wr :: writes) l 0 Hd).
  cbn [clock clock_count tick_io].
  rewrite _put_ok by now apply fault_free_tick_clock, fault_free_tick_io.
  eexists. split; [reflexivity|]. split.
  { now apply fault_free_wrote, fault_free_tick_clock, fault_free_tick_io. }
  split; [|split; reflexivity].
  unfold ledger_entries. rewrite records_wrote_eq.
  erewrite bins_written by reflexivity.
  cbn [snd]. now rewrite upsert_all_dicts.
Qed.

End LedgerRun.

(** *** What replace-or-append does to the entries of a pair *)

Lemma upsert_absent m new l :
  List.filter m l = [] → upsert m new l = l ++ [new].
Proof.
  induction l as [|x l IH]; simpl; [easy|].
  destruct (m x); [discriminate|]. intros H. now rewrite IH.
Qed.

Lemma upsert_matching m new l :
  m new = true →
  List.filter m (upsert m new l) = new :: tail (List.filter m l).
Proof.
  intros Hn. induction l as [|x l IH]; simpl; [now rewrite Hn|].
  destruct (m x) eqn:Hx; simpl; [now rewrite Hn|].
  now rewrite Hx.
Qed.

Lemma upsert_others m m' new l :
  m' new = false → (∀ x, m x = true → m' x = false) →
  List.filter m' (upsert m new l) = List.filter m' l.
Proof.
  intros Hn Hdis. induction l as [|x l IH]; simpl; [now rewrite Hn|].
  destruct (m x) eqn:Hx; simpl.
  - now rewrite Hn, (Hdis x Hx).
  - now rewrite IH.
Qed.

Lemma py_eq_int_inj b i j :
  py_eq b (PInt i) = true → py_eq b (PInt j) = true → i = j.
Proof.
  destruct b; simpl; try discriminate; intros H1 H2;
    apply Z.eqb_eq in H1, H2; congruence.
Qed.

Lemma py_eq_str_inj a s s' :
  py_eq a (PStr s) = true → py_eq a (PStr s') = true → s = s'.
Proof.
  destruct a; simpl; try discriminate; intros H1 H2.
  apply String.eqb_eq in H1, H2. congruence.
Qed.

Lemma entry_matches_disjoint task idx task' idx' x :
  (task', idx') ≠ (task, idx) →
  entry_matches task idx x = true → entry_matches task' idx' x = false.
Proof.
  intros Hne. unfold entry_matches.
  destruct (py_get x "task_id" PNone) as [a|]; [|easy].
  destruct (py_get x "idx" PNone) as [b|]; [|easy].
  intros [Ha Hb]%andb_true_iff.
  destruct (py_eq a (PStr task')) eqn:Ha'; [|easy].
  destruct (py_eq b (PInt idx')) eqn:Hb'; [|easy].
  exfalso. apply Hne. f_equal.
  - exact (py_eq_str_inj _ _ _ Ha' Ha).
  - exact (py_eq_int_inj _ _ _ Hb' Hb).
Qed.

Section LedgerEntries.
Context `{E : Externals}.

Lemma new_entry_matches task path now ch idx v task' idx' :
  entry_matches task' idx' (new_entry task path now ch idx v)
  = (String.eqb task task' && Z.eqb idx idx').
Proof. reflexivity. Qed.

Lemma new_entry_matches_self task path now ch idx v :
  entry_matches task idx (new_entry task path now ch idx v) = true.
Proof.
  rewrite new_entry_matches. now rewrite String.eqb_refl, Z.eqb_refl.
Qed.

Lemma new_entry_matches_other task path now ch idx v task' idx' :
  (task', idx') ≠ (task, idx) →
  entry_matches task' idx' (new_entry task path now ch idx v) = false.
Proof.
  intros Hne. rewrite new_entry_matches.
  destruct (String.eqb task task') eqn:Ht; [|easy].
  destruct (Z.eqb idx idx') eqn:Hi; [|easy].
  apply String.eqb_eq in Ht. apply Z.eqb_eq in Hi. congruence.
Qed.

End LedgerEntries.

Section LedgerTheorems.
Context `{E : Externals} (self : AerospikeSaver).

Lemma writes_idx_special channel idx z :
  NoDup (map fst WRITES_IDX_MAP) → (channel, z) ∈ WRITES_IDX_MAP →
  writes_idx channel idx = z.
Proof.
  unfold writes_idx. induction WRITES_IDX_MAP as [|[k v] tbl IH]; simpl.
  - intros _ Hin. now apply elem_of_nil in Hin.
  - intros Hnd Hin. apply list.NoDup_cons in Hnd as [Hk Hnd].
    apply elem_of_cons in Hin as [Heq|Hin].
    + injection Heq as <- <-. now rewrite String.eqb_refl.
    + destruct (String.eqb channel k) eqn:Hck; [|now apply IH].
      apply String.eqb_eq in Hck. subst k. exfalso. apply Hk.
      apply list_elem_of_fmap. now exists (channel, z).
Qed.

Lemma writes_idx_positional channel idx :
  channel ∉ map fst WRITES_IDX_MAP → writes_idx channel idx = idx.
Proof.
  unfold writes_idx. induction WRITES_IDX_MAP as [|[k v] tbl IH]; simpl; [easy|].
  intros Hnot. apply not_elem_of_cons in Hnot as [Hne Hnot].
  rewrite (proj2 (String.eqb_neq channel k) Hne). now apply IH.
Qed.

(** C4.  Two [put_writes] calls of one task on one checkpoint, each with
    one write, whose writes get the same ordering index: afterwards the
    ledger has one entry for (task id, index), the one built from the
    second value, and the entries of every other pair are as before.  A
    write whose pair has no entry is appended after the existing entries.
    A call with several writes merges them in order, the write at
    position [j] of channel [ch] under index [writes_idx ch j]: the
    table's value for [ch] if it has one, else [j]. *)
Theorem put_writes_replace_or_append
    config task_id task_path ch1 v1 ch2 v2 w t n cid l :
  fault_free w →
  _ids_from_config config = Ok (t, n, cid) →
  py_truthy cid = true →
  ledger_entries self t n cid w = Some l →
  writes_idx ch2 0 = writes_idx ch1 0 →
  (length (List.filter (entry_matches task_id (writes_idx ch1 0)) l) ≤ 1)%nat →
  let idx := writes_idx ch1 0 in
  let now1 := clock w (clock_count w) in
  let now2 := clock w (S (clock_count w)) in
  (∃ w1 l1 w2 l2,
     put_writes self config [(ch1, v1)] task_id task_path w = (Ok tt, w1) ∧
     ledger_entries self t n cid w1 = Some l1 ∧
     put_writes self config [(ch2, v2)] task_id task_path w1 = (Ok tt, w2) ∧
     ledger_entries self t n cid w2 = Some l2 ∧
     List.filter (entry_matches task_id idx) l2
     = [new_entry task_id task_path now2 ch2 idx v2] ∧
     (∀ task' idx', (task', idx') ≠ (task_id, idx) →
        List.filter (entry_matches task' idx') l2
        = List.filter (entry_matches task' idx') l) ∧
     (List.filter (entry_matches task_id idx) l = [] →
        l1 = l ++ [new_entry task_id task_path now1 ch1 idx v1])) ∧
  (∀ writes, writes ≠ [] →
     ∃ w', put_writes self config writes task_id task_path w = (Ok tt, w') ∧
           ledger_entries self t n cid w'
           = Some (upsert_all task_id task_path now1 l 0 writes)) ∧
  (∀ channel j z,
     NoDup (map fst WRITES_IDX_MAP) → (channel, z) ∈ WRITES_IDX_MAP →
     writes_idx channel j = z) ∧
  (∀ channel j, channel ∉ map fst WRITES_IDX_MAP → writes_idx channel j = j).
Proof.
  intros Hff Hids Hcid Hled Hsame Hone idx now1 now2.
  split; [|split; [|split]].
  - destruct (put_writes_run self config [(ch1, v1)] task_id task_path w t n cid l
                Hff ltac:(easy) Hids Hcid Hled) as (w1 & Hrun1 & Hff1 & Hl1 & Hcc & Hck).
    destruct (put_writes_run self config [(ch2, v2)] task_id task_path w1 t n cid _
                Hff1 ltac:(easy) Hids Hcid Hl1) as (w2 & Hrun2 & _ & Hl2 & _).
    rewrite Hcc, Hck in Hl2. cbn [upsert_all] in Hl1, Hl2.
    rewrite Hsame in Hl2. fold idx now1 now2 in Hl1, Hl2.
    eexists w1, _, w2, _.
    split; [exact Hrun1|]. split; [exact Hl1|].
    split; [exact Hrun2|]. split; [exact Hl2|].
    split; [|split].
    + rewrite !upsert_matching by apply new_entry_matches_self.
      simpl. destruct (List.filter _ l) as [|x [|y r]]; [easy|easy|].
      simpl in Hone. lia.
    + intros task' idx' Hne.
      rewrite !upsert_others;
        [reflexivity
        |now apply new_entry_matches_other
        |intros x; now apply entry_matches_disjoint
        |now apply new_entry_matches_other
        |intros x; now apply entry_matches_disjoint].
    + intros Hnone. now apply upsert_absent.
  - intros writes Hne.
    destruct (put_writes_run self config writes task_id task_path w t n cid l
                Hff Hne Hids Hcid Hled) as (w' & Hrun & _ & Hl' & _).
    now exists w'.
  - intros channel j z. apply writes_idx_special.
  - intros channel j. apply writes_idx_positional.
Qed.

(** [put_writes] up to the merge, when the ledger record exists. *)
Lemma put_writes_existing config writes task_id task_path w t n cid b :
  fault_free w →
  writes ≠ [] →
  _ids_from_config config = Ok (t, n, cid) →
  py_truthy cid = true →
  records w !! _key_writes self t n cid = Some b →
  put_writes self config writes task_id task_path w
  = bind (lift (merge_writes task_id task_path (clock w (clock_count w))
                  (default PNone (b !! "writes"%string)) 0 writes))
      (λ items, _put self (_key_writes self t n cid)
                  (list_to_map [("writes"%string, items)]))
      (tick_clock (tick_io w)).
Proof.
  intros Hff Hne Hids Hcid Hb.
  destruct writes as [|wr writes]; [easy|].
  unfold put_writes.
  unfold bind at 1. unfold lift at 1. rewrite Hids. rewrite Hcid. cbn [negb].
  rewrite (bind_ok _ _ _ _ _ (_get_ok _ _ Hff)). rewrite Hb.
  cbn [fmap option_fmap option_map].
  now rewrite (bind_ok _ _ _ _ _ (now_ns_run _)).
Qed.

(** C8 (what the code does).  When the ledger record exists and its
    [writes] bin is missing, [put_writes] with a write to store raises
    [TypeError]; when the bin holds a string it raises [AttributeError].
    Nothing is written in either case. *)
Theorem put_writes_malformed_ledger_raises
    config writes task_id task_path w t n cid b :
  fault_free w →
  writes ≠ [] →
  _ids_from_config config = Ok (t, n, cid) →
  py_truthy cid = true →
  records w !! _key_writes self t n cid = Some b →
  (b !! "writes"%string = None →
   ∃ w', put_writes self config writes task_id task_path w = (Raise TypeError, w') ∧
         records w' = records w) ∧
  (∀ s, b !! "writes"%string = Some (PStr s) →
   ∃ w', put_writes self config writes task_id task_path w = (Raise AttributeError, w') ∧
         records w' = records w).
Proof.
  intros Hff Hne Hids Hcid Hb.
  rewrite (put_writes_existing config writes task_id task_path w t n cid b
             Hff Hne Hids Hcid Hb).
  destruct writes as [|[channel value] writes]; [easy|].
  split.
  - intros Hnone. rewrite Hnone. cbn [default from_option].
    unfold bind, lift. cbn [merge_writes merge_write].
    destruct (dumps_typed value). simpl. now eexists.
  - intros s Hs. rewrite Hs. cbn [default from_option id].
    unfold bind, lift. cbn [merge_writes merge_write].
    destruct (dumps_typed value). cbn [py_iter rbind].
    destruct s as [|a s]; simpl; now eexists.
Qed.

(** C10.  With no writes [put_writes] returns at once, whatever the
    config; the config is parsed, and its error raised, only when there
    is a write. *)
Theorem put_writes_empty_returns_first :
  (∀ config task_id task_path w,
     put_writes self config [] task_id task_path w = (Ok tt, w)) ∧
  (∀ config writes task_id task_path w e,
     writes ≠ [] → _ids_from_config config = Raise e →
     put_writes self config writes task_id task_path w = (Raise e, w)).
Proof.
  split; [reflexivity|].
  intros config [|wr writes] task_id task_path w e Hne Hids; [easy|].
  unfold put_writes, bind, lift. now rewrite Hids.
Qed.

End LedgerTheorems.

(** ** Listing *)

Lemma before_loop_seen x items : before_loop x items true = items.
Proof. induction items as [|[ts cid] items IH]; simpl; [easy|]. now rewrite IH. Qed.

Lemma before_loop_after_first x items :
  before_loop x items false = after_first x items.
Proof.
  induction items as [|[ts cid] items IH]; simpl; [easy|].
  destruct (py_eq cid x); [apply before_loop_seen|exact IH].
Qed.

Lemma after_first_sublist x items : after_first x items `sublist_of` items.
Proof.
  induction items as [|it items IH]; simpl; [constructor|].
  destruct (py_eq (snd it) x); apply sublist_cons; [reflexivity|exact IH].
Qed.

Lemma after_first_wf x items :
  Forall wf_item items → Forall wf_item (after_first x items).
Proof.
  induction 1 as [|it items Hit Hitems IH]; simpl; [constructor|].
  now destruct (py_eq (snd it) x).
Qed.

Lemma after_first_absent (c : string) items :
  Forall wf_item items → PStr c ∉ timeline_ids items →
  after_first (PStr c) items = [].
Proof.
  induction 1 as [|[ts cid] items [_ Hit] _ IH]; simpl; [easy|].
  intros Hnot. apply not_elem_of_cons in Hnot as [Hne Hnot].
  destruct (py_eq cid (PStr c)) eqn:Heq; [|now apply IH].
  apply py_eq_str in Heq; [congruence|exact Hit].
Qed.

Lemma after_first_excludes (c : string) items :
  Forall wf_item items → NoDup (timeline_ids items) →
  PStr c ∉ timeline_ids (after_first (PStr c) items).
Proof.
  induction 1 as [|[ts cid] items [_ Hit] _ IH]; simpl; [intros _; apply not_elem_of_nil|].
  intros Hnd. apply list.NoDup_cons in Hnd as [Hcid Hnd].
  destruct (py_eq cid (PStr c)) eqn:Heq; [|now apply IH].
  apply py_eq_str in Heq; [|exact Hit]. simpl in Heq. now subst cid.
Qed.

Lemma ids_scope_config t n cid :
  _ids_from_config (scope_config t n cid)
  = if py_truthy t then Ok (t, py_or n (PStr EmptyString), cid)
    else Raise (ValueError "configurable.thread_id is required in RunnableConfig").
Proof.
  unfold _ids_from_config, scope_config, py_or. cbn.
  destruct (py_truthy t) eqn:Ht; cbn; rewrite ?Ht; cbn; [|reflexivity].
  destruct (py_truthy n) eqn:Hn; cbn; now rewrite ?Hn.
Qed.

Section Listing.
Context `{E : Externals} (self : AerospikeSaver).

Lemma _get_cases k w :
  _get k w = (Ok ((λ b, (k, tt, b)) <$> records w !! k), tick_io w) ∨
  _get k w = (Raise (RuntimeError OpGet k), tick_io w).
Proof.
  destruct (io_fault w (io_count w)) eqn:Hf.
  - right. now apply _get_fault.
  - left. now apply _get_nofault.
Qed.

(** A tuple [get_tuple] returns for a config with a checkpoint id carries
    that id. *)
Lemma get_tuple_id t n cid w tpl w' :
  py_is_none cid = false →
  get_tuple self (scope_config t n cid) w = (Ok (Some tpl), w') →
  tuple_id tpl = cid.
Proof.
  intros Hcid. unfold get_tuple.
  unfold bind at 1. unfold lift at 1. rewrite ids_scope_config.
  destruct (py_truthy t); [|discriminate].
  rewrite Hcid. unfold bind at 1. unfold ret at 1.
  unfold bind at 1.
  destruct (_get_cases (_key_cp self t (py_or n (PStr EmptyString)) cid) w) as [-> | ->];
    [|discriminate].
  destruct (records w !! _) as [b|]; [|discriminate]. cbn [fmap option_fmap option_map].
  destruct (py_is_none _ || py_is_none _); [discriminate|].
  destruct (loads_typed _ _); [|discriminate].
  destruct (py_is_none _ || py_is_none _); [discriminate|].
  destruct (loads_typed _ _); [|discriminate].
  unfold bind at 1.
  destruct (_get_cases (_key_writes self t (py_or n (PStr EmptyString)) cid) (tick_io w))
    as [-> | ->]; [|discriminate].
  unfold bind, ret, lift.
  destruct (_ <$> _) as [[[? ?] wb]|].
  - destruct (rbind _ _); [|discriminate]. now intros [= <- _].
  - now intros [= <- _].
Qed.

End Listing.

Lemma filter_ok_true flt md :
  filter_ok flt md = Ok true →
  ∀ k v, (k, v) ∈ flt → ∃ x, py_get md k PNone = Ok x ∧ py_eq x v = true.
Proof.
  induction flt as [|[k0 v0] flt IH]; simpl; intros H k v Hin.
  - now apply elem_of_nil in Hin.
  - destruct (py_get md k0 PNone) as [x|] eqn:Hx; [|discriminate H].
    simpl in H. destruct (py_eq x v0) eqn:Heq; [|discriminate H].
    apply elem_of_cons in Hin as [[= -> ->]|Hin]; [now exists x|].
    now apply IH.
Qed.

Lemma py_eq_none v : py_eq PNone v = true → v = PNone.
Proof. now destruct v. Qed.

Section ListLoop.
Context `{E : Externals} (self : AerospikeSaver).

Lemma list_loop_passes t n flt limit items :
  ∀ yielded w ys err w',
    list_loop self t n flt limit items yielded w = (ys, err, w') →
    Forall (passes flt) ys.
Proof.
  induction items as [|[ts cid] items IH]; intros yielded w ys err w' H.
  - injection H as <- _ _. constructor.
  - cbn [list_loop] in H.
    destruct (match limit with Some n0 => yielded >=? n0 | None => false end).
    { injection H as <- _ _. constructor. }
    destruct (get_tuple self (scope_config t n cid) w) as [[[tpl|]|e] w1].
    + destruct (match flt with
                | Some (kv :: f) => filter_ok (kv :: f) (CheckpointTuple.metadata tpl)
                | _ => Ok true
                end) as [[|]|e] eqn:Hf.
      * destruct (list_loop self t n flt limit items (yielded + 1) w1)
          as [[ys1 err1] w2] eqn:Hrest.
        injection H as <- _ _. constructor; [|exact (IH _ _ _ _ _ Hrest)].
        unfold passes. now destruct flt as [[|kv f]|].
      * exact (IH _ _ _ _ _ H).
      * injection H as <- _ _. constructor.
    + exact (IH _ _ _ _ _ H).
    + injection H as <- _ _. constructor.
Qed.

Lemma list_loop_ids t n flt limit items :
  Forall wf_item items →
  ∀ yielded w ys err w',
    list_loop self t n flt limit items yielded w = (ys, err, w') →
    map tuple_id ys `sublist_of` timeline_ids items.
Proof.
  induction 1 as [|[ts cid] items [_ [c Hc]] _ IH]; intros yielded w ys err w' H.
  - injection H as <- _ _. constructor.
  - cbn [list_loop] in H. simpl in Hc. subst cid. cbn [timeline_ids map snd].
    destruct (match limit with Some n0 => yielded >=? n0 | None => false end).
    { injection H as <- _ _. apply sublist_nil_l. }
    destruct (get_tuple self (scope_config t n (PStr c)) w) as [[[tpl|]|e] w1] eqn:Hget.
    + destruct (match flt with
                | Some (kv :: f) => filter_ok (kv :: f) (CheckpointTuple.metadata tpl)
                | _ => Ok true
                end) as [[|]|e].
      * destruct (list_loop self t n flt limit items (yielded + 1) w1)
          as [[ys1 err1] w2] eqn:Hrest.
        injection H as <- _ _. cbn [map].
        rewrite (get_tuple_id self t n (PStr c) w tpl w1 eq_refl Hget).
        apply sublist_skip. exact (IH _ _ _ _ _ Hrest).
      * apply sublist_cons. exact (IH _ _ _ _ _ H).
      * injection H as <- _ _. apply sublist_nil_l.
    + apply sublist_cons. exact (IH _ _ _ _ _ H).
    + injection H as <- _ _. apply sublist_nil_l.
Qed.

End ListLoop.

Section ListTheorems.
Context `{E : Externals} (L : ExternalsLaws E) (self : AerospikeSaver).

Lemma _read_timeline_items_cases t n w :
  _read_timeline_items (_key_timeline self t n) w
  = (Ok (timeline self t n w), tick_io w) ∨
  _read_timeline_items (_key_timeline self t n) w
  = (Raise (RuntimeError OpGet (_key_timeline self t n)), tick_io w).
Proof.
  destruct (io_fault w (io_count w)) eqn:Hf.
  - right. unfold _read_timeline_items.
    now rewrite (bind_raise _ _ _ _ _ (_get_fault _ _ Hf)).
  - left. now apply _read_timeline_items_nofault.
Qed.

(** [list] with a [before] that names checkpoint [x]: it either raises
    on the timeline read, or loops over the entries after [x]. *)
Lemma list_before_run config flt before limit w t n cid0 bt bn x :
  _ids_from_config (py_or config (PDict [])) = Ok (t, n, cid0) →
  py_is_none before = false →
  _ids_from_config (py_or before (PDict [])) = Ok (bt, bn, PStr x) →
  x ≠ EmptyString →
  (io_fault w (io_count w) = true ∧
   ∃ e w', list_ self config flt before limit w = ([], Some e, w')) ∨
  (io_fault w (io_count w) = false ∧
   list_ self config flt before limit w
   = list_loop self t n flt limit
       (after_first (PStr x) (timeline self t n w)) 0 (tick_io w)).
Proof.
  intros Hids Hbefore Hbids Hx.
  assert (Hlift : lift (_ids_from_config (py_or config (PDict []))) w
                  = (Ok (t, n, cid0), w)) by (unfold lift; now rewrite Hids).
  unfold list_, list_items.
  destruct (io_fault w (io_count w)) eqn:Hf.
  - left. split; [reflexivity|].
    rewrite (bind_ok _ _ _ _ _ Hlift). unfold _read_timeline_items.
    rewrite (bind_raise _ _ _ _ _ (bind_raise _ _ _ _ _ (_get_fault _ _ Hf))).
    now eexists _, _.
  - right. split; [reflexivity|].
    rewrite (bind_ok _ _ _ _ _ Hlift).
    rewrite (bind_ok _ _ _ _ _ (_read_timeline_items_nofault self _ _ _ Hf)).
    rewrite Hbefore. cbn [negb].
    unfold bind, lift, ret. rewrite Hbids. cbn [snd py_truthy].
    rewrite (proj2 (String.eqb_neq x EmptyString) Hx). cbn [negb].
    now rewrite before_loop_after_first.
Qed.

(** C5.  [list] with [before] naming checkpoint [x] yields only ids that
    come after the first entry for [x] in the timeline, in timeline
    order; with no entry for [x] it yields nothing and, the backend
    answering, ends without an exception; and when the timeline has no
    duplicate ids it never yields [x]. *)
Theorem list_before_strictly_after config flt before limit w t n cid0 bt bn x :
  _ids_from_config (py_or config (PDict [])) = Ok (t, n, cid0) →
  py_is_none before = false →
  _ids_from_config (py_or before (PDict [])) = Ok (bt, bn, PStr x) →
  x ≠ EmptyString →
  let ys := fst (fst (list_ self config flt before limit w)) in
  let err := snd (fst (list_ self config flt before limit w)) in
  let tl := timeline self t n w in
  map tuple_id ys `sublist_of` timeline_ids (after_first (PStr x) tl) ∧
  (NoDup (timeline_ids tl) → PStr x ∉ map tuple_id ys) ∧
  (PStr x ∉ timeline_ids tl →
   ys = [] ∧ (io_fault w (io_count w) = false → err = None)).
Proof.
  intros Hids Hbefore Hbids Hx ys err tl.
  pose proof (timeline_wf L self t n w) as Hwf. fold tl in Hwf.
  assert (Hsub : map tuple_id ys `sublist_of` timeline_ids (after_first (PStr x) tl)).
  { destruct (list_before_run config flt before limit w t n cid0 bt bn x
                Hids Hbefore Hbids Hx) as [(_ & e & w' & Hrun)|[_ Hrun]].
    - subst ys. rewrite Hrun. apply sublist_nil_l.
    - subst ys. rewrite Hrun. fold tl.
      destruct (list_loop self t n flt limit (after_first (PStr x) tl) 0 (tick_io w))
        as [[ys0 err0] w0] eqn:Hloop.
      eapply list_loop_ids; [|exact Hloop].
      now apply after_first_wf. }
  split; [exact Hsub|]. split.
  - intros Hnd Hin. apply (after_first_excludes x tl Hwf Hnd).
    eapply elem_of_sublist; [exact Hin|exact Hsub].
  - intros Hnot. rewrite (after_first_absent x tl Hwf Hnot) in Hsub.
    apply sublist_nil_r in Hsub. apply fmap_nil_inv in Hsub.
    split; [exact Hsub|]. intros Hf.
    destruct (list_before_run config flt before limit w t n cid0 bt bn x
                Hids Hbefore Hbids Hx) as [[Hf' _]|[_ Hrun]]; [congruence|].
    subst err. rewrite Hrun. fold tl.
    now rewrite (after_first_absent x tl Hwf Hnot).
Qed.

(** C9, as the code has it.  Every checkpoint [list] yields under a
    filter satisfies, for each key [k] of the filter with value [v],
    [metadata.get(k) == v] in Python's sense of [==]; so a checkpoint
    whose metadata has no [k] is let through exactly when [v] is [None],
    and is excluded for every other [v]. *)
Theorem list_filter_matches config flt before limit w tpl k v :
  tpl ∈ fst (fst (list_ self config (Some flt) before limit w)) →
  (k, v) ∈ flt →
  (∃ x, py_get (CheckpointTuple.metadata tpl) k PNone = Ok x ∧ py_eq x v = true) ∧
  (∀ d, CheckpointTuple.metadata tpl = PDict d → dict_lookup k d = None → v = PNone).
Proof.
  intros Htpl Hkv.
  assert (Hpass : passes (Some flt) tpl).
  { unfold list_ in Htpl.
    destruct (list_items self config before w) as [[[[t n] items]|e] w1].
    - destruct (list_loop self t n (Some flt) limit items 0 w1)
        as [[ys err] w2] eqn:Hloop.
      simpl in Htpl.
      pose proof (list_loop_passes self _ _ _ _ _ _ _ _ _ _ Hloop) as Hall.
      exact (proj1 (list.Forall_forall _ _) Hall _ Htpl).
    - simpl in Htpl. now apply elem_of_nil in Htpl. }
  unfold passes in Hpass.
  destruct flt as [|kv f]; [now apply elem_of_nil in Hkv|].
  destruct (filter_ok_true _ _ Hpass k v Hkv) as (x & Hx & Heq).
  split; [now exists x|].
  intros d Hd Hnone. rewrite Hd in Hx. simpl in Hx. rewrite Hnone in Hx.
  injection Hx as <-. now apply py_eq_none.
Qed.

End ListTheorems.

(** ** Backend failures inside put *)

Section PutFailure.
Context `{E : Externals} (L : ExternalsLaws E) (self : AerospikeSaver).

(** [put] from its first backend call on. *)
Lemma put_steps config cp md nv w t n parent c extra :
  _ids_from_config config = Ok (t, n, parent) →
  dict_lookup "id" cp = Some (PStr c) →
  c ≠ EmptyString →
  py_get config "metadata" (PDict []) = Ok (PDict extra) →
  ∃ rest : M pyval,
    put self config cp md nv w
    = bind (_put self (_key_cp self t n (PStr c))
              (checkpoint_bins t n parent (PStr c) (stamp_ts cp w) (stamp_cp cp w)
                 (dict_update md extra)))
        (λ _, bind (_put self (_key_latest self t n)
                      (latest_bins (PStr c) (stamp_ts cp w)))
          (λ _, bind (_read_timeline_items (_key_timeline self t n))
            (λ items,
               bind (lift (match json_dumps
                                   (items_to_json
                                      (timeline_step (timeline_max self)
                                         (stamp_ts cp w) (PStr c) items)) with
                           | Some s => Ok s
                           | None => Raise TypeError
                           end))
                 (λ dumped, bind (_put self (_key_timeline self t n)
                                    (timeline_bins dumped))
                              (λ _, rest)))))
        (stamp_world cp w).
Proof.
  intros Hids Hid Hc Hmd.
  unfold put.
  unfold bind at 1. unfold lift at 1. rewrite Hids.
  rewrite Hid. cbn [default from_option id py_truthy negb].
  rewrite (proj2 (String.eqb_neq c EmptyString) Hc). cbn [negb].
  assert (Hst : (if py_is_none (default PNone (dict_lookup "ts" cp))
          then (now <- _now_ns;; ret (PInt now, dict_set "ts" (PInt now) cp))%M
          else ret (default PNone (dict_lookup "ts" cp), cp)) w
          = (Ok (stamp_ts cp w, stamp_cp cp w), stamp_world cp w)).
  { unfold stamp_ts, stamp_cp, stamp_world. now destruct (py_is_none _). }
  rewrite (bind_ok _ _ _ _ _ Hst). clear Hst.
  unfold checkpoint_bins.
  destruct (dumps_typed (PDict (stamp_cp cp w))) as [cp_type cp_bytes].
  unfold bind at 1. unfold lift at 1. rewrite Hmd.
  unfold bind at 1. unfold lift at 1. cbn [py_dict].
  destruct (dumps_typed (PDict (dict_update md extra))) as [meta_type meta_bytes].
  cbn [fst snd]. eexists. reflexivity.
Qed.

Lemma io_stamp_world cp w :
  io_count (stamp_world cp w) = io_count w ∧ io_fault (stamp_world cp w) = io_fault w.
Proof. unfold stamp_world. now destruct (py_is_none _). Qed.

(** C7, as the code has it.  [put] raises [RuntimeError] for a backend
    failure at any of its steps.  A failure of the first write names the
    checkpoint key and leaves the records as they were.  When the first
    write succeeds and the pointer write, the timeline read or the
    timeline write fails, the error names the pointer key or the
    timeline key, which differ from the checkpoint key, and the
    checkpoint record is in the backend. *)
Theorem put_backend_failure config cp md nv w t n c :
  put_ok_input t n config cp c →
  let i := io_count w in
  let kcp := _key_cp self t n (PStr c) in
  (io_fault w i = true →
   ∃ w', put self config cp md nv w = (Raise (RuntimeError OpPut kcp), w') ∧
         records w' = records w) ∧
  (io_fault w i = false →
   io_fault w (S i) = true ∨ io_fault w (S (S i)) = true ∨
   io_fault w (S (S (S i))) = true →
   ∃ op k w' b,
     put self config cp md nv w = (Raise (RuntimeError op k), w') ∧
     (k = _key_latest self t n ∨ k = _key_timeline self t n) ∧
     k ≠ kcp ∧
     records w' !! kcp = Some b ∧
     b !! "checkpoint"%string
     = Some (PBytes (snd (dumps_typed (PDict (stamp_cp cp w)))))).
Proof.
  intros ([parent Hids] & [extra Hmd] & Hid & Hvalid & Hts) i kcp.
  destruct (put_steps config cp md nv w t n parent c extra Hids Hid (proj1 Hvalid) Hmd)
    as [rest Hput].
  rewrite Hput. clear Hput.
  destruct (io_stamp_world cp w) as [Hic Hif].
  destruct (valid_id_keys L self t n c Hvalid) as (Hk1 & Hk2 & _).
  set (cpb := checkpoint_bins t n parent (PStr c) (stamp_ts cp w) (stamp_cp cp w)
                (dict_update md extra)).
  split.
  - intros Hf.
    rewrite (bind_raise _ _ _ _ _ (_put_fault self _ _ (stamp_world cp w)
               ltac:(now rewrite Hic, Hif))).
    eexists. split; [reflexivity|]. cbn [records tick_io]. apply records_stamp_world.
  - intros Hf0 Hsome.
    rewrite (bind_ok _ _ _ _ _ (_put_nofault self _ _ (stamp_world cp w)
               ltac:(now rewrite Hic, Hif))).
    fold kcp. set (w1 := wrote kcp cpb (stamp_world cp w)).
    assert (Hc1 : io_count w1 = S i) by (change (io_count w1) with (S (io_count (stamp_world cp w))); now rewrite Hic).
    assert (Hf1 : io_fault w1 = io_fault w) by exact Hif.
    assert (Hr1 : ∃ b, records w1 !! kcp = Some b ∧
                       b !! "checkpoint"%string
                       = Some (PBytes (snd (dumps_typed (PDict (stamp_cp cp w)))))).
    { subst w1. rewrite records_wrote_eq. eexists. split; [reflexivity|].
      apply bins_written. reflexivity. }
    destruct Hr1 as (b & Hb & Hbcp).
    destruct (io_fault w (S i)) eqn:H1.
    { rewrite (bind_raise _ _ _ _ _ (_put_fault self _ _ w1
                 ltac:(now rewrite Hc1, Hf1))).
      exists OpPut, (_key_latest self t n), (tick_io w1), b.
      split; [reflexivity|]. split; [now left|]. split; [intros Heq; first [apply Hk1; symmetry; exact Heq|apply Hk2; symmetry; exact Heq]|].
      split; [exact Hb|exact Hbcp]. }
    rewrite (bind_ok _ _ _ _ _ (_put_nofault self _ _ w1
               ltac:(now rewrite Hc1, Hf1))).
    set (w2 := wrote (_key_latest self t n) _ w1).
    assert (Hc2 : io_count w2 = S (S i)) by (change (io_count w2) with (S (io_count w1)); now rewrite Hc1).
    assert (Hf2 : io_fault w2 = io_fault w) by exact Hf1.
    assert (Hr2 : records w2 !! kcp = Some b).
    { subst w2. rewrite records_wrote_ne by (intros Heq; apply Hk1; symmetry; exact Heq). exact Hb. }
    destruct (io_fault w (S (S i))) eqn:H2.
    { assert (Hread : _read_timeline_items (_key_timeline self t n) w2
                      = (Raise (RuntimeError OpGet (_key_timeline self t n)), tick_io w2)).
      { unfold _read_timeline_items.
        apply bind_raise, _get_fault. now rewrite Hc2, Hf2. }
      rewrite (bind_raise _ _ _ _ _ Hread).
      exists OpGet, (_key_timeline self t n), (tick_io w2), b.
      split; [reflexivity|]. split; [now right|]. split; [intros Heq; first [apply Hk1; symmetry; exact Heq|apply Hk2; symmetry; exact Heq]|].
      split; [exact Hr2|exact Hbcp]. }
    assert (H3 : io_fault w (S (S (S i))) = true) by (destruct Hsome as [?|[?|?]]; congruence).
    rewrite (bind_ok _ _ _ _ _ (_read_timeline_items_nofault self _ _ w2
               ltac:(now rewrite Hc2, Hf2))).
    assert (Hwf : Forall wf_item
                    (timeline_step (timeline_max self) (stamp_ts cp w) (PStr c)
                       (timeline self t n w2))).
    { apply timeline_step_wf; [now apply stamp_ts_json|apply (timeline_wf L)]. }
    destruct (json_roundtrip _ L _ (items_to_json_is_json _ Hwf)) as (text & Hd & _).
    unfold bind at 1. unfold lift at 1. rewrite Hd.
    rewrite (bind_raise _ _ _ _ _ (_put_fault self _ _ (tick_io w2)
               ltac:(change (io_fault w2 (S (io_count w2)) = true); now rewrite Hc2, Hf2))).
    exists OpPut, (_key_timeline self t n), (tick_io (tick_io w2)), b.
    split; [reflexivity|]. split; [now right|]. split; [intros Heq; first [apply Hk1; symmetry; exact Heq|apply Hk2; symmetry; exact Heq]|].
    split; [exact Hr2|exact Hbcp].
Qed.

End PutFailure.

(** ** Reads leave the records alone *)

Lemma readonly_ret {A} (a : A) : readonly (ret a).
Proof. intros w. reflexivity. Qed.

Lemma readonly_raise {A} (e : exn) : readonly (@raise A e).
Proof. intros w. reflexivity. Qed.

Lemma readonly_lift {A} (r : result A) : readonly (lift r).
Proof. intros w. reflexivity. Qed.

Lemma readonly_bind {A B} (m : M A) (f : A → M B) :
  readonly m → (∀ a, readonly (f a)) → readonly (bind m f).
Proof.
  intros Hm Hf w. unfold bind. specialize (Hm w).
  destruct (m w) as [[a|e] w1]; simpl in *; [|exact Hm].
  now rewrite Hf.
Qed.

Lemma readonly_get k : readonly (_get k).
Proof.
  intros w. destruct (_get_cases k w) as [-> | ->]; reflexivity.
Qed.

Section ReadOnly.
Context `{E : Externals} (self : AerospikeSaver).

Lemma readonly_read_timeline k : readonly (_read_timeline_items k).
Proof.
  unfold _read_timeline_items. apply readonly_bind; [apply readonly_get|].
  intros [[[? ?] b]|]; apply readonly_ret.
Qed.

Lemma readonly_get_tuple config : readonly (get_tuple self config).
Proof.
  unfold get_tuple.
  apply readonly_bind; [apply readonly_lift|]. intros [[t n] cid0].
  apply readonly_bind.
  { destruct (py_is_none cid0); [|apply readonly_ret].
    apply readonly_bind; [apply readonly_get|].
    intros [[[? ?] b]|]; [|apply readonly_ret].
    destruct (b !! "checkpoint_id"%string); apply readonly_ret. }
  intros [cid|]; [|apply readonly_ret].
  apply readonly_bind; [apply readonly_get|].
  intros [[[? ?] b]|]; [|apply readonly_ret].
  destruct (py_is_none _ || py_is_none _); [apply readonly_ret|].
  destruct (loads_typed _ _); [|apply readonly_ret].
  destruct (py_is_none _ || py_is_none _); [apply readonly_ret|].
  destruct (loads_typed _ _); [|apply readonly_ret].
  apply readonly_bind; [apply readonly_get|]. intros wrec.
  apply readonly_bind; [|intros; apply readonly_ret].
  destruct wrec as [[[? ?] wb]|]; [apply readonly_lift|apply readonly_ret].
Qed.

Lemma readonly_list_loop t n flt limit items :
  ∀ yielded w,
    records (snd (list_loop self t n flt limit items yielded w)) = records w.
Proof.
  induction items as [|[ts cid] items IH]; intros yielded w; [reflexivity|].
  cbn [list_loop].
  destruct (match limit with Some n0 => yielded >=? n0 | None => false end);
    [reflexivity|].
  pose proof (readonly_get_tuple (scope_config t n cid) w) as Hget.
  destruct (get_tuple self (scope_config t n cid) w) as [[[tpl|]|e] w1];
    simpl in Hget.
  - destruct (match flt with
              | Some (kv :: f) => filter_ok (kv :: f) (CheckpointTuple.metadata tpl)
              | _ => Ok true
              end) as [[|]|e].
    + specialize (IH (yielded + 1) w1).
      destruct (list_loop self t n flt limit items (yielded + 1) w1) as [[ys err] w2].
      simpl in *. congruence.
    + rewrite IH. exact Hget.
    + exact Hget.
  - rewrite IH. exact Hget.
  - exact Hget.
Qed.

(** X1.  [get_tuple] and [list] never change a record of the backend,
    whatever the config, the filter, the records and the faults. *)
Theorem reads_never_write config flt before limit w :
  records (snd (get_tuple self config w)) = records w ∧
  records (snd (list_ self config flt before limit w)) = records w.
Proof.
  split; [apply readonly_get_tuple|].
  unfold list_.
  assert (Hitems : readonly (list_items self config before)).
  { unfold list_items.
    apply readonly_bind; [apply readonly_lift|]. intros [[t n] c].
    apply readonly_bind; [apply readonly_read_timeline|]. intros items.
    apply readonly_bind; [|intros; apply readonly_ret].
    destruct (negb (py_is_none before)); [|apply readonly_ret].
    apply readonly_bind; [apply readonly_lift|]. intros; apply readonly_ret. }
  specialize (Hitems w).
  destruct (list_items self config before w) as [[[[t n] items]|e] w1];
    simpl in Hitems; [|exact Hitems].
  rewrite readonly_list_loop. exact Hitems.
Qed.

End ReadOnly.

(** ** Config parsing *)

Lemma py_or_shape a b : py_or a b = a ∧ py_truthy a = true ∨ py_or a b = b ∧ py_truthy a = false.
Proof. unfold py_or. destruct (py_truthy a); auto. Qed.

(** X2.  When [_ids_from_config] returns, the thread id is truthy and
    the namespace is truthy or the empty string: no key is ever built
    from a missing thread id or from a [None] namespace. *)
Theorem ids_from_config_shape config t n cid :
  _ids_from_config config = Ok (t, n, cid) →
  py_truthy t = true ∧ (py_truthy n = true ∨ n = PStr EmptyString).
Proof.
  unfold _ids_from_config.
  destruct (py_get _ "configurable" _) as [c0|]; [|discriminate].
  destruct (py_get _ "metadata" _) as [md0|]; [|discriminate]. cbn [rbind].
  destruct (py_get _ "thread_id" _) as [t0|]; [|discriminate]. cbn [rbind].
  destruct (if py_truthy t0 then _ else _) as [thread_id|]; [|discriminate].
  cbn [rbind]. destruct (py_truthy thread_id) eqn:Ht; [|discriminate]. cbn [negb].
  destruct (py_get _ "checkpoint_ns" _) as [n0|]; [|discriminate]. cbn [rbind].
  destruct (if py_truthy n0 then _ else _) as [n1|]; [|discriminate]. cbn [rbind].
  destruct (py_get _ "checkpoint_id" _) as [c|]; [|discriminate]. cbn [rbind].
  intros [= <- <- <-]. split; [exact Ht|].
  destruct (py_or_shape n1 (PStr EmptyString)) as [[-> H]|[-> H]]; auto.
Qed.

(** X3.  A config with dict sections (or none) whose [configurable] and
    [metadata] both lack a truthy [thread_id] is refused with
    [ValueError]; so is [None] and the empty dict. *)
Theorem ids_from_config_requires_thread config d cd mdd :
  py_or config (PDict []) = PDict d →
  py_or (default (PDict []) (dict_lookup "configurable" d)) (PDict []) = PDict cd →
  py_or (default (PDict []) (dict_lookup "metadata" d)) (PDict []) = PDict mdd →
  py_truthy (default PNone (dict_lookup "thread_id" cd)) = false →
  py_truthy (default PNone (dict_lookup "thread_id" mdd)) = false →
  _ids_from_config config
  = Raise (ValueError "configurable.thread_id is required in RunnableConfig").
Proof.
  intros Hd Hcd Hmd Ht1 Ht2. unfold _ids_from_config.
  rewrite Hd. cbn [py_get rbind]. rewrite Hcd, Hmd. cbn [py_get rbind].
  rewrite Ht1. cbn [py_get rbind]. now rewrite Ht2.
Qed.

(** ** Keys of different scopes *)

Lemma append_assoc (a b c : string) : (a +:+ b) +:+ c = a +:+ (b +:+ c).
Proof.
  induction a as [|ch a IH]; [reflexivity|].
  change (String ch ((a +:+ b) +:+ c) = String ch (a +:+ (b +:+ c))).
  now rewrite IH.
Qed.

Lemma append_nil_l (s : string) : EmptyString +:+ s = s.
Proof. reflexivity. Qed.

Lemma append_cons (ch : ascii) (a s : string) : String ch a +:+ s = String ch (a +:+ s).
Proof. reflexivity. Qed.

Lemma sep_split a a' r r' :
  sep_free a = true → sep_free a' = true →
  a +:+ SEP +:+ r = a' +:+ SEP +:+ r' → a = a' ∧ r = r'.
Proof.
  unfold SEP.
  revert a'. induction a as [|ch a IH]; intros [|ch' a'] Ha Ha' H;
    repeat first [rewrite append_nil_l in H | rewrite append_cons in H];
    simpl in Ha, Ha'.
  - injection H as <-. easy.
  - injection H as <- _. discriminate Ha'.
  - injection H as -> _. discriminate Ha.
  - apply andb_true_iff in Ha as [_ Ha]. apply andb_true_iff in Ha' as [_ Ha'].
    injection H as <- H. destruct (IH a' Ha Ha' H) as [<- <-]. easy.
Qed.

Section KeyScopes.
Context `{E : Externals} (L : ExternalsLaws E) (self : AerospikeSaver).

Lemma user_key_scope_inj t n t' n' x x' :
  sep_free t = true → sep_free n = true →
  sep_free t' = true → sep_free n' = true →
  user_key (PStr t) (PStr n) x = user_key (PStr t') (PStr n') x' →
  t = t' ∧ n = n' ∧ x = x'.
Proof.
  intros Ht Hn Ht' Hn'. unfold user_key. rewrite !(py_str_str _ L). intros H.
  apply sep_split in H as [<- H]; [|assumption..].
  apply sep_split in H as [<- H]; [|assumption..]. easy.
Qed.

(** X4.  For thread ids and namespaces without the separator, the keys
    of two scopes never meet: equal checkpoint keys (or write-set keys)
    mean the same thread, namespace and checkpoint id, and equal pointer
    or timeline keys mean the same thread and namespace. *)
Theorem keys_injective t n t' n' c c' :
  sep_free t = true → sep_free n = true →
  sep_free t' = true → sep_free n' = true →
  (_key_cp self (PStr t) (PStr n) (PStr c) = _key_cp self (PStr t') (PStr n') (PStr c') →
   t = t' ∧ n = n' ∧ c = c') ∧
  (_key_writes self (PStr t) (PStr n) (PStr c)
   = _key_writes self (PStr t') (PStr n') (PStr c') →
   t = t' ∧ n = n' ∧ c = c') ∧
  (_key_latest self (PStr t) (PStr n) = _key_latest self (PStr t') (PStr n') →
   t = t' ∧ n = n') ∧
  (_key_timeline self (PStr t) (PStr n) = _key_timeline self (PStr t') (PStr n') →
   t = t' ∧ n = n').
Proof.
  intros Ht Hn Ht' Hn'.
  unfold _key_cp, _key_writes, _key_latest, _key_timeline.
  rewrite !(py_str_str _ L).
  split; [|split; [|split]]; intros [= Hk];
    apply (user_key_scope_inj t n t' n') in Hk; tauto.
Qed.

(** X5.  The separator is not checked: thread [a|b] with namespace [c]
    and thread [a] with namespace [b|c] are given the same four keys, so
    the two scopes share their checkpoints, pointer, timeline and
    write-sets. *)
Theorem keys_collide_on_separator (a b c : string) (x : pyval) :
  let t1 := PStr (a +:+ SEP +:+ b) in
  let n1 := PStr c in
  let t2 := PStr a in
  let n2 := PStr (b +:+ SEP +:+ c) in
  _key_cp self t1 n1 x = _key_cp self t2 n2 x ∧
  _key_writes self t1 n1 x = _key_writes self t2 n2 x ∧
  _key_latest self t1 n1 = _key_latest self t2 n2 ∧
  _key_timeline self t1 n1 = _key_timeline self t2 n2.
Proof.
  cbn zeta.
  assert (H : ∀ last, user_key (PStr (a +:+ SEP +:+ b)) (PStr c) last
                      = user_key (PStr a) (PStr (b +:+ SEP +:+ c)) last).
  { intros last. unfold user_key. rewrite !(py_str_str _ L).
    now rewrite !append_assoc. }
  unfold _key_cp, _key_writes, _key_latest, _key_timeline.
  now rewrite !H.
Qed.

End KeyScopes.

(** ** Calls that stop before the backend *)

Section EarlyReturns.
Context `{E : Externals} (self : AerospikeSaver).

(** X6.  [put] validates before it touches anything: a config that
    [_ids_from_config] refuses raises that error, and a checkpoint whose
    [id] is missing or falsy raises [ValueError]; in both cases no
    backend call is made and the clock is not read. *)
Theorem put_validates_first config cp md nv w :
  (∀ e, _ids_from_config config = Raise e →
        put self config cp md nv w = (Raise e, w)) ∧
  (∀ ids, _ids_from_config config = Ok ids →
          py_truthy (default PNone (dict_lookup "id" cp)) = false →
          put self config cp md nv w
          = (Raise (ValueError "checkpoint_id is required for put()"), w)).
Proof.
  split.
  - intros e He. unfold put, bind, lift. now rewrite He.
  - intros [[t n] p] Hids Hid. unfold put.
    unfold bind at 1. unfold lift at 1. rewrite Hids. now rewrite Hid.
Qed.

(** X7.  [put_writes] for a config without a truthy checkpoint id is a
    no-op: it returns without a backend call, whatever the writes. *)
Theorem put_writes_without_checkpoint_id config writes task_id task_path w t n cid :
  _ids_from_config config = Ok (t, n, cid) →
  py_truthy cid = false →
  put_writes self config writes task_id task_path w = (Ok tt, w).
Proof.
  intros Hids Hcid. destruct writes as [|wr writes]; [reflexivity|].
  unfold put_writes. unfold bind at 1. unfold lift at 1.
  rewrite Hids. now rewrite Hcid.
Qed.

End EarlyReturns.

(** ** The whole tuple *)

Section GetTupleRun.
Context `{E : Externals} (self : AerospikeSaver).

(** [get_tuple] on a fault-free backend that holds a decodable record
    for the resolved id: the tuple it returns, or the exception of the
    write-set read. *)
Lemma get_tuple_run config w t n cid0 cid b cpv mdv :
  fault_free w →
  _ids_from_config config = Ok (t, n, cid0) →
  resolves self t n cid0 cid w →
  records w !! _key_cp self t n cid = Some b →
  (∃ ty raw, b !! "cp_type"%string = Some ty ∧ b !! "checkpoint"%string = Some raw ∧
             py_is_none ty = false ∧ py_is_none raw = false ∧
             loads_typed ty raw = Ok cpv) →
  (∃ ty raw, b !! "meta_type"%string = Some ty ∧ b !! "metadata"%string = Some raw ∧
             py_is_none ty = false ∧ py_is_none raw = false ∧
             loads_typed ty raw = Ok mdv) →
  ∃ w',
    fault_free w' ∧
    get_tuple self config w
    = (match stored_pending self t n cid w with
       | Ok pw =>
           Ok (Some (CheckpointTuple.mk (scope_config t n cid) cpv mdv
                       (parent_of t n b) pw))
       | Raise e => Raise e
       end, w').
Proof.
  intros Hff Hids Hres Hb (cty & craw & Hct & Hcr & Hctn & Hcrn & Hcl)
    (mty & mraw & Hmt & Hmr & Hmtn & Hmrn & Hml).
  unfold get_tuple.
  unfold bind at 1. unfold lift at 1. rewrite Hids.
  assert (Hresolve : ∃ w1, fault_free w1 ∧ records w1 = records w ∧
            (if py_is_none cid0
             then (latest <- _get (_key_latest self t n);;
                   match latest with
                   | Some (_, _, b0) =>
                       match b0 !! "checkpoint_id"%string with
                       | Some cid1 => ret (Some cid1)
                       | None => ret None
                       end
                   | None => ret None
                   end)%M
             else ret (Some cid0)) w = (Ok (Some cid), w1)).
  { unfold resolves in Hres. destruct (py_is_none cid0).
    - destruct Hres as (bl & Hbl & Hcid). exists (tick_io w).
      split; [now apply fault_free_tick_io|]. split; [reflexivity|].
      rewrite (bind_ok _ _ _ _ _ (_get_ok _ _ Hff)). rewrite Hbl. simpl.
      now rewrite Hcid.
    - subst cid0. now exists w. }
  destruct Hresolve as (w1 & Hff1 & Hr1 & Hrun1).
  rewrite (bind_ok _ _ _ _ _ Hrun1).
  rewrite (bind_ok _ _ _ _ _ (_get_ok _ _ Hff1)). rewrite Hr1, Hb. simpl.
  rewrite Hct, Hcr, Hmt, Hmr. simpl. rewrite Hctn, Hcrn, Hmtn, Hmrn. simpl.
  rewrite Hcl, Hml.
  rewrite (bind_ok _ _ _ _ _ (_get_ok _ _ (fault_free_tick_io _ Hff1))).
  simpl records. rewrite Hr1. unfold stored_pending, parent_of.
  exists (tick_io (tick_io w1)).
  split; [now apply fault_free_tick_io, fault_free_tick_io|].
  destruct (records w !! _key_writes self t n cid) as [wb|]; simpl.
  - unfold bind, lift, ret.
    destruct (rbind (py_iter _) _); reflexivity.
  - reflexivity.
Qed.

End GetTupleRun.

(** ** What put returns *)

Lemma dict_lookup_set_eq k v d : dict_lookup k (dict_set k v d) = Some v.
Proof.
  induction d as [|[k' v'] d IH]; simpl.
  - now rewrite String.eqb_refl.
  - destruct (String.eqb k k') eqn:Hk; simpl; rewrite ?String.eqb_refl, ?Hk; easy.
Qed.

Lemma dict_lookup_set_ne k k' v d :
  k ≠ k' → dict_lookup k (dict_set k' v d) = dict_lookup k d.
Proof.
  intros Hne. induction d as [|[k0 v0] d IH]; simpl.
  - now rewrite (proj2 (String.eqb_neq k k') Hne).
  - destruct (String.eqb k' k0) eqn:Hk0; simpl.
    + apply String.eqb_eq in Hk0. subst k0.
      now rewrite (proj2 (String.eqb_neq k k') Hne).
    + destruct (String.eqb k k0); [reflexivity|exact IH].
Qed.

Lemma dict_set_truthy k v d : py_truthy (PDict (dict_set k v d)) = true.
Proof. destruct d as [|[k' v'] d]; simpl; [easy|]. now destruct (String.eqb k k'). Qed.

(** What a successful [_ids_from_config] read from a dict config. *)
Lemma ids_inv d t n cid :
  _ids_from_config (PDict d) = Ok (t, n, cid) →
  ∃ cd,
    py_or (default PNone (dict_lookup "configurable" d)) (PDict []) = PDict cd ∧
    py_truthy t = true ∧
    cid = default PNone (dict_lookup "checkpoint_id" cd) ∧
    (py_truthy n = true ∨
     n = PStr EmptyString ∧
     ∃ n1, py_get (py_or (default (PDict []) (dict_lookup "metadata" d)) (PDict []))
             "checkpoint_ns" PNone = Ok n1 ∧ py_truthy n1 = false).
Proof.
  intros Hids. destruct (ids_configurable d _ Hids) as [cd Hcd]. exists cd.
  split; [exact Hcd|]. revert Hids. unfold _ids_from_config.
  assert (Hc : py_or (default (PDict []) (dict_lookup "configurable" d)) (PDict [])
               = PDict cd).
  { destruct (dict_lookup "configurable" d); [exact Hcd|]. simpl in *. exact Hcd. }
  assert (Hd : py_or (PDict d) (PDict []) = PDict d ∨ d = []).
  { destruct d; [now right|now left]. }
  assert (Hget : ∀ k dflt, py_get (py_or (PDict d) (PDict [])) k dflt
                           = Ok (default dflt (dict_lookup k d))).
  { intros k dflt. destruct d; reflexivity. }
  rewrite !Hget. cbn [rbind]. rewrite Hc. cbn [py_get rbind].
  set (md := py_or (default (PDict []) (dict_lookup "metadata" d)) (PDict [])).
  destruct (if py_truthy (default PNone (dict_lookup "thread_id" cd)) then _ else _)
    as [thread_id|]; [|discriminate].
  cbn [rbind]. destruct (py_truthy thread_id) eqn:Ht; [|discriminate]. cbn [negb].
  destruct (py_truthy (default PNone (dict_lookup "checkpoint_ns" cd))) eqn:Hn0.
  - cbn [rbind]. intros [= <- <- <-]. split; [exact Ht|]. split; [reflexivity|].
    left. unfold py_or. now rewrite Hn0.
  - destruct (py_get md "checkpoint_ns" PNone) as [n1|] eqn:Hn1; [|discriminate].
    cbn [rbind]. intros [= <- <- <-]. split; [exact Ht|]. split; [reflexivity|].
    unfold py_or. destruct (py_truthy n1) eqn:Hn1t; [now left|].
    right. split; [reflexivity|]. now exists n1.
Qed.

(** The returned config names the scope and the checkpoint just put. *)
Lemma ids_put_result d t n parent cid :
  _ids_from_config (PDict d) = Ok (t, n, parent) →
  _ids_from_config (put_result (PDict d) t n cid) = Ok (t, n, cid).
Proof.
  intros Hids. destruct (ids_inv d t n parent Hids) as (cd & Hcd & Ht & _ & Hn).
  unfold put_result. rewrite Hcd.
  set (cd' := dict_update cd _).
  assert (Hl1 : dict_lookup "thread_id" cd' = Some t).
  { subst cd'. cbn [dict_update fold_left fst snd].
    rewrite !dict_lookup_set_ne by discriminate. apply dict_lookup_set_eq. }
  assert (Hl2 : dict_lookup "checkpoint_ns" cd' = Some n).
  { subst cd'. cbn [dict_update fold_left fst snd].
    rewrite dict_lookup_set_ne by discriminate. apply dict_lookup_set_eq. }
  assert (Hl3 : dict_lookup "checkpoint_id" cd' = Some cid).
  { subst cd'. cbn [dict_update fold_left fst snd]. apply dict_lookup_set_eq. }
  assert (Hcd' : py_truthy (PDict cd') = true).
  { subst cd'. cbn [dict_update fold_left fst snd]. apply dict_set_truthy. }
  assert (Hor1 : ∀ x, py_or (PDict (dict_set "configurable" x d)) (PDict [])
                      = PDict (dict_set "configurable" x d)).
  { intros x. unfold py_or. now rewrite dict_set_truthy. }
  assert (Hor2 : py_or (PDict cd') (PDict []) = PDict cd').
  { unfold py_or. now rewrite Hcd'. }
  unfold _ids_from_config. rewrite !Hor1. cbn [py_get rbind].
  rewrite dict_lookup_set_eq. cbn [default from_option id]. rewrite !Hor2.
  rewrite dict_lookup_set_ne by discriminate. cbn [py_get rbind].
  rewrite Hl1, Hl2, Hl3. cbn [default from_option id]. rewrite Ht. cbn [rbind].
  rewrite Ht. cbn [negb].
  destruct Hn as [Hn|(-> & n1 & Hn1 & Hn1f)].
  - rewrite Hn. cbn [rbind]. unfold py_or. now rewrite Hn.
  - cbn [py_truthy String.eqb negb]. rewrite Hn1. cbn [rbind].
    unfold py_or. now rewrite Hn1f.
Qed.

Section PutResult.
Context `{E : Externals} (L : ExternalsLaws E) (self : AerospikeSaver).

(** A fault-free [put] with good input: the config it returns and the
    world it leaves. *)
Lemma put_run_result config cp md nv w t n parent c extra :
  fault_free w →
  _ids_from_config config = Ok (t, n, parent) →
  dict_lookup "id" cp = Some (PStr c) →
  c ≠ EmptyString →
  _key_cp self t n (PStr c) ≠ _key_timeline self t n →
  is_json (default PNone (dict_lookup "ts" cp)) = true →
  py_get config "metadata" (PDict []) = Ok (PDict extra) →
  ∃ text,
    json_loads text
    = Some (items_to_json
              (timeline_step (timeline_max self) (stamp_ts cp w) (PStr c)
                 (timeline self t n w))) ∧
    put self config cp md nv w
    = (Ok (put_result config t n (PStr c)),
       put_world self t n parent (PStr c) cp (dict_update md extra) text w).
Proof.
  intros Hff Hids Hid Hc Hk Hts Hmd.
  set (items := timeline_step (timeline_max self) (stamp_ts cp w) (PStr c)
                  (timeline self t n w)).
  assert (Hwf : Forall wf_item items).
  { apply timeline_step_wf; [now apply stamp_ts_json|apply (timeline_wf L)]. }
  destruct (json_roundtrip _ L _ (items_to_json_is_json _ Hwf)) as (text & Hd & Hl).
  exists text. split; [exact Hl|].
  unfold put.
  unfold bind at 1. unfold lift at 1. rewrite Hids.
  rewrite Hid. cbn [default from_option id py_truthy negb].
  rewrite (proj2 (String.eqb_neq c EmptyString) Hc). cbn [negb].
  assert (Hst : (if py_is_none (default PNone (dict_lookup "ts" cp))
          then (now <- _now_ns;; ret (PInt now, dict_set "ts" (PInt now) cp))%M
          else ret (default PNone (dict_lookup "ts" cp), cp)) w
          = (Ok (stamp_ts cp w, stamp_cp cp w), stamp_world cp w)).
  { unfold stamp_ts, stamp_cp, stamp_world. now destruct (py_is_none _). }
  rewrite (bind_ok _ _ _ _ _ Hst). clear Hst.
  assert (Hff1 : fault_free (stamp_world cp w)).
  { unfold stamp_world. destruct (py_is_none _); [now apply fault_free_tick_clock|easy]. }
  unfold put_world, checkpoint_bins.
  destruct (dumps_typed (PDict (stamp_cp cp w))) as [cp_type cp_bytes].
  unfold bind at 1. unfold lift at 1. rewrite Hmd.
  unfold bind at 1. unfold lift at 1. cbn [py_dict].
  destruct (dumps_typed (PDict (dict_update md extra))) as [meta_type meta_bytes].
  cbn [fst snd].
  rewrite (bind_ok _ _ _ _ _ (_put_ok self _ _ _ Hff1)).
  match goal with |- context [wrote ?k ?b ?w] => set (w1 := wrote k b w) end.
  assert (Hff2 : fault_free w1) by now apply fault_free_wrote.
  rewrite (bind_ok _ _ _ _ _ (_put_ok self _ _ _ Hff2)).
  fold (latest_bins (PStr c) (stamp_ts cp w)).
  set (w2 := wrote _ (latest_bins _ _) w1).
  assert (Hff3 : fault_free w2) by now apply fault_free_wrote.
  rewrite (bind_ok _ _ _ _ _ (_read_timeline_items_nofault self _ _ _ (Hff3 _))).
  assert (Htl : timeline self t n w2 = timeline self t n w).
  { subst w2 w1.
    rewrite timeline_wrote_ne by apply key_latest_timeline.
    rewrite timeline_wrote_ne by exact Hk.
    apply timeline_stamp_world. }
  rewrite Htl.
  match goal with |- context [json_dumps (items_to_json ?x)] => change x with items end.
  unfold bind at 1. unfold lift at 1. rewrite Hd.
  rewrite (bind_ok _ _ _ _ _ (_put_ok self _ _ _ (fault_free_tick_io _ Hff3))).
  fold (timeline_bins text).
  destruct config as [| | | | | |d]; try discriminate Hmd.
  destruct (ids_configurable _ _ Hids) as [cd Hcd].
  unfold bind, lift. cbn [py_dict py_get]. unfold put_result. rewrite Hcd.
  reflexivity.
Qed.

End PutResult.

(** ** put, then get_tuple *)

Lemma writes_bin_wrote k (b : bins) w k' :
  b !! "writes"%string = None →
  (records (wrote k b w) !! k') ≫= (λ x : bins, x !! "writes"%string)
  = (records w !! k') ≫= (λ x : bins, x !! "writes"%string).
Proof.
  intros Hb. rewrite records_wrote. destruct (decide (k = k')) as [<-|]; [|easy].
  simpl. rewrite bins_kept by exact Hb.
  destruct (records w !! k); simpl; [easy|]. apply lookup_empty.
Qed.

Section PutGet.
Context `{E : Externals} (L : ExternalsLaws E) (self : AerospikeSaver).

Lemma stored_pending_bin t n cid w :
  stored_pending self t n cid w
  = match (records w !! _key_writes self t n cid)
          ≫= (λ x : bins, x !! "writes"%string) with
    | None => Ok []
    | Some v => (its <~ py_iter (py_or v (PList [])) ;; read_pending its)%py
    end.
Proof.
  unfold stored_pending. destruct (records w !! _); simpl; [|easy].
  now destruct (_ !! "writes"%string).
Qed.

(** [put] leaves the pending writes of every checkpoint as they were. *)
Lemma stored_pending_put_world t n parent cid cp md text w t' n' cid' :
  stored_pending self t' n' cid' (put_world self t n parent cid cp md text w)
  = stored_pending self t' n' cid' w.
Proof.
  rewrite !stored_pending_bin. unfold put_world.
  rewrite writes_bin_wrote by reflexivity. cbn [records tick_io].
  rewrite writes_bin_wrote by reflexivity.
  rewrite writes_bin_wrote by reflexivity.
  now rewrite records_stamp_world.
Qed.

(** X8.  The config [put] returns names the scope and the new
    checkpoint id, and [get_tuple] on it returns what was just put: the
    stamped checkpoint, the metadata merged with the config's, the parent
    named by the config's checkpoint id (none when it has none), and the
    pending writes stored for that id.  This holds whatever the backend
    held for the id before, so a second [put] of an id replaces what the
    first stored. *)
Theorem put_then_get_tuple config cp md nv w t n parent c extra pw :
  fault_free w →
  _ids_from_config config = Ok (t, n, parent) →
  py_get config "metadata" (PDict []) = Ok (PDict extra) →
  dict_lookup "id" cp = Some (PStr c) →
  valid_checkpoint_id c →
  is_json (default PNone (dict_lookup "ts" cp)) = true →
  stored_pending self t n (PStr c) w = Ok pw →
  let cfg' := put_result config t n (PStr c) in
  ∃ w1 w2,
    put self config cp md nv w = (Ok cfg', w1) ∧
    _ids_from_config cfg' = Ok (t, n, PStr c) ∧
    get_tuple self cfg' w1
    = (Ok (Some (CheckpointTuple.mk
                   (scope_config t n (PStr c))
                   (PDict (stamp_cp cp w))
                   (PDict (dict_update md extra))
                   (if py_truthy parent then Some (scope_config t n parent) else None)
                   pw)), w2).
Proof.
  intros Hff Hids Hmd Hid Hvalid Hts Hpw cfg'.
  destruct (valid_id_keys L self t n c Hvalid) as (Hk1 & Hk2 & _).
  destruct (put_run_result L self config cp md nv w t n parent c extra
              Hff Hids Hid (proj1 Hvalid) Hk2 Hts Hmd) as (text & Hl & Hput).
  set (w1 := put_world self t n parent (PStr c) cp (dict_update md extra) text w) in *.
  assert (Hff1 : fault_free w1).
  { subst w1. unfold put_world, stamp_world.
    repeat first [apply fault_free_wrote | apply fault_free_tick_io].
    destruct (py_is_none _); [now apply fault_free_tick_clock|exact Hff]. }
  assert (Hids' : _ids_from_config cfg' = Ok (t, n, PStr c)).
  { subst cfg'. destruct config as [| | | | | |d]; try discriminate Hmd.
    now apply (ids_put_result d t n parent). }
  destruct (get_tuple_run self cfg' w1 t n (PStr c) (PStr c)
              (checkpoint_bins t n parent (PStr c) (stamp_ts cp w) (stamp_cp cp w)
                 (dict_update md extra)
               ∪ default ∅ (records w !! _key_cp self t n (PStr c)))
              (PDict (stamp_cp cp w)) (PDict (dict_update md extra)))
    as (w2 & _ & Hget).
  - exact Hff1.
  - exact Hids'.
  - reflexivity.
  - subst w1. now apply put_world_cp.
  - eexists _, _. split; [apply bins_written; reflexivity|].
    split; [apply bins_written; reflexivity|].
    split; [reflexivity|]. split; [reflexivity|].
    apply (serde_roundtrip _ L). apply surjective_pairing.
  - eexists _, _. split; [apply bins_written; reflexivity|].
    split; [apply bins_written; reflexivity|].
    split; [reflexivity|]. split; [reflexivity|].
    apply (serde_roundtrip _ L). apply surjective_pairing.
  - exists w1, w2. split; [exact Hput|]. split; [exact Hids'|].
    rewrite Hget. subst w1. rewrite stored_pending_put_world, Hpw.
    unfold parent_of. erewrite bins_written by reflexivity. reflexivity.
Qed.

End PutGet.

Section PutOthers.
Context `{E : Externals} (L : ExternalsLaws E) (self : AerospikeSaver).

(** With a checkpoint id in the config, the answer of a fault-free
    [get_tuple] is a function of the checkpoint record and the pending
    writes. *)
Lemma get_tuple_explicit config w t n cid :
  fault_free w →
  _ids_from_config config = Ok (t, n, cid) →
  py_is_none cid = false →
  fst (get_tuple self config w)
  = tuple_from t n cid (records w !! _key_cp self t n cid)
      (stored_pending self t n cid w).
Proof.
  intros Hff Hids Hcid.
  unfold get_tuple.
  unfold bind at 1. unfold lift at 1. rewrite Hids, Hcid.
  unfold bind at 1. unfold ret at 1.
  rewrite (bind_ok _ _ _ _ _ (_get_ok _ _ Hff)).
  unfold tuple_from, stored_pending, parent_of.
  destruct (records w !! _key_cp self t n cid) as [b|]; [|reflexivity].
  cbn [fmap option_fmap option_map].
  destruct (py_is_none _ || py_is_none _); [reflexivity|].
  destruct (loads_typed _ _); [|reflexivity].
  destruct (py_is_none _ || py_is_none _); [reflexivity|].
  destruct (loads_typed _ _); [|reflexivity].
  rewrite (bind_ok _ _ _ _ _ (_get_ok _ _ (fault_free_tick_io _ Hff))).
  cbn [records tick_io].
  destruct (records w !! _key_writes self t n cid) as [wb|];
    cbn [fmap option_fmap option_map]; unfold bind, lift, ret; [|reflexivity].
  now destruct (rbind _ _).
Qed.

Lemma get_tuple_congr config w w' t n cid :
  fault_free w → fault_free w' →
  _ids_from_config config = Ok (t, n, cid) →
  py_is_none cid = false →
  records w !! _key_cp self t n cid = records w' !! _key_cp self t n cid →
  stored_pending self t n cid w = stored_pending self t n cid w' →
  fst (get_tuple self config w) = fst (get_tuple self config w').
Proof.
  intros Hff Hff' Hids Hcid Hrec Hsp.
  rewrite !(get_tuple_explicit config _ t n cid) by assumption.
  now rewrite Hrec, Hsp.
Qed.

(** X9.  A [put] of checkpoint [c] does not change what [get_tuple]
    answers for another checkpoint id [a] of the scope. *)
Theorem put_keeps_other_checkpoints config cp md nv w t n c other a :
  fault_free w →
  put_ok_input t n config cp c →
  _ids_from_config other = Ok (t, n, PStr a) →
  a ≠ c → a ≠ "__latest__"%string → a ≠ "__timeline__"%string →
  ∃ cfg' w',
    put self config cp md nv w = (Ok cfg', w') ∧
    fst (get_tuple self other w') = fst (get_tuple self other w).
Proof.
  intros Hff Hin Hother Hac Hal Hat.
  pose proof Hin as ([parent Hids] & [extra Hmd] & Hid & Hvalid & Hts).
  destruct (valid_id_keys L self t n c Hvalid) as (_ & Hk2 & _).
  destruct (put_run_result L self config cp md nv w t n parent c extra
              Hff Hids Hid (proj1 Hvalid) Hk2 Hts Hmd) as (text & _ & Hput).
  eexists _, _. split; [exact Hput|].
  apply (get_tuple_congr other _ w t n (PStr a)).
  - unfold put_world, stamp_world.
    repeat first [apply fault_free_wrote | apply fault_free_tick_io].
    destruct (py_is_none _); [now apply fault_free_tick_clock|exact Hff].
  - exact Hff.
  - exact Hother.
  - reflexivity.
  - apply put_world_other.
    + apply key_cp_timeline. now rewrite (py_str_str _ L).
    + apply key_cp_latest. now rewrite (py_str_str _ L).
    + intros Heq. apply key_cp_inj in Heq. rewrite !(py_str_str _ L) in Heq.
      congruence.
  - apply stored_pending_put_world.
Qed.

End PutOthers.

(** ** put_writes, then get_tuple *)

Lemma entry_matches_of_task task idx item :
  entry_matches task idx item = true → entry_of_task task item = true.
Proof.
  unfold entry_matches, entry_of_task.
  destruct (py_get item "task_id" PNone); [|easy].
  destruct (py_get item "idx" PNone); [|easy].
  now intros [H _]%andb_true_iff.
Qed.

Lemma filter_none_weaken {A} (f g : A → bool) l :
  (∀ x, f x = true → g x = true) →
  List.filter g l = [] → List.filter f l = [].
Proof.
  intros Hfg. induction l as [|x l IH]; simpl; [easy|].
  destruct (g x) eqn:Hg; [discriminate|]. intros H.
  destruct (f x) eqn:Hf; [|now apply IH].
  apply Hfg in Hf. congruence.
Qed.

Section WritesThenGet.
Context `{E : Externals} (L : ExternalsLaws E) (self : AerospikeSaver).

Lemma upsert_all_appends task_id task_path now_ts writes :
  Forall (λ wr, fst wr ∉ map fst WRITES_IDX_MAP) writes →
  ∀ l idx,
    (∀ j, idx ≤ j → List.filter (entry_matches task_id j) l = []) →
    upsert_all task_id task_path now_ts l idx writes
    = l ++ new_entries task_id task_path now_ts idx writes.
Proof.
  induction 1 as [|[ch v] writes Hch _ IH]; intros l idx Hfree.
  - simpl. now rewrite app_nil_r.
  - cbn [upsert_all new_entries]. simpl in Hch.
    rewrite (writes_idx_positional ch idx Hch).
    rewrite upsert_absent by (apply Hfree; lia).
    rewrite IH.
    + now rewrite <- app_assoc.
    + intros j Hj. rewrite filter_app, Hfree by lia. simpl.
      rewrite new_entry_matches, String.eqb_refl.
      now rewrite (proj2 (Z.eqb_neq idx j)) by lia.
Qed.

Lemma read_pending_app l l' pw :
  read_pending l = Ok pw →
  read_pending (l ++ l') = (pw' <~ read_pending l' ;; Ok (pw ++ pw'))%py.
Proof.
  revert pw. induction l as [|item l IH]; intros pw; simpl.
  - intros [= <-]. now destruct (read_pending l').
  - destruct (read_pending_item item) as [x|]; [|discriminate]. cbn [rbind].
    destruct (read_pending l) as [xs|] eqn:Hl; [|discriminate]. cbn [rbind].
    intros [= <-]. rewrite (IH xs eq_refl).
    destruct (read_pending l'); cbn [rbind]; [|reflexivity]. now destruct x.
Qed.

Lemma read_pending_new_entries task_id task_path now_ts writes :
  ∀ idx, read_pending (new_entries task_id task_path now_ts idx writes)
         = Ok (pending_of task_id writes).
Proof.
  induction writes as [|[ch v] writes IH]; intros idx; [reflexivity|].
  cbn [new_entries read_pending]. rewrite IH.
  unfold read_pending_item, new_entry. cbn [py_get py_getitem dict_lookup String.eqb
    Ascii.eqb Bool.eqb default from_option id rbind].
  rewrite (serde_roundtrip _ L v _ _ (surjective_pairing _)). reflexivity.
Qed.

Lemma stored_pending_ledger t n cid w l :
  ledger_entries self t n cid w = Some l →
  stored_pending self t n cid w = read_pending l.
Proof.
  unfold ledger_entries, stored_pending.
  destruct (records w !! _) as [b|]; [|now intros [= <-]].
  destruct (b !! "writes"%string) as [[| | | | |l0|]|]; try discriminate.
  destruct (forallb is_dict l0); [|discriminate]. intros [= <-].
  cbn [default from_option id]. now destruct l0.
Qed.

(** A fault-free [put_writes] on an absent or well-formed ledger: the
    world it leaves. *)
Lemma put_writes_world config writes task_id task_path w t n cid l :
  fault_free w →
  writes ≠ [] →
  _ids_from_config config = Ok (t, n, cid) →
  py_truthy cid = true →
  ledger_entries self t n cid w = Some l →
  put_writes self config writes task_id task_path w
  = (Ok tt,
     wrote (_key_writes self t n cid)
       (list_to_map
          [("writes"%string,
            PList (upsert_all task_id task_path (clock w (clock_count w)) l 0 writes))])
       (tick_clock (tick_io w))).
Proof.
  intros Hff Hne Hids Hcid Hled.
  destruct writes as [|wr writes]; [easy|].
  unfold put_writes.
  unfold bind at 1. unfold lift at 1. rewrite Hids. rewrite Hcid. cbn [negb].
  rewrite (bind_ok _ _ _ _ _ (_get_ok _ _ Hff)).
  assert (Hex : match (λ b, (_key_writes self t n cid, (), b)) <$>
                      records w !! _key_writes self t n cid with
                | Some (_, _, b) => default PNone (b !! "writes"%string)
                | None => PList []
                end = PList l ∧ forallb is_dict l = true).
  { unfold ledger_entries in Hled.
    destruct (records w !! _key_writes self t n cid) as [b|]; simpl.
    - destruct (b !! "writes"%string) as [[| | | | |l'|]|]; try discriminate Hled.
      destruct (forallb is_dict l') eqn:Hd; [|discriminate Hled].
      injection Hled as <-. easy.
    - injection Hled as <-. easy. }
  destruct Hex as [-> Hd].
  rewrite (bind_ok _ _ _ _ _ (now_ns_run _)).
  unfold bind at 1. unfold lift at 1.
  rewrite (merge_writes_upsert_all task_id task_path _ (wr :: writes) l 0 Hd).
  cbn [clock clock_count tick_io].
  now rewrite _put_ok by now apply fault_free_tick_clock, fault_free_tick_io.
Qed.

Lemma tuple_from_pending t n cid rec pw pw' tpl :
  tuple_from t n cid rec (Ok pw) = Ok (Some tpl) →
  tuple_from t n cid rec (Ok pw') = Ok (Some (with_pending tpl pw')).
Proof.
  unfold tuple_from. destruct rec as [b|]; [|discriminate].
  destruct (py_is_none _ || py_is_none _); [discriminate|].
  destruct (loads_typed _ _); [|discriminate].
  destruct (py_is_none _ || py_is_none _); [discriminate|].
  destruct (loads_typed _ _); [|discriminate].
  now intros [= <-].
Qed.

(** X10.  Writes stored by [put_writes] come back from [get_tuple]:
    when the task has no entry in the checkpoint's ledger and no channel
    is in the reserved table, the tuple read afterwards is the one read
    before with the triples (task id, channel, value) of the call, in
    call order, after the pending writes it had. *)
Theorem put_writes_then_get_tuple config writes task_id task_path w t n cid l tpl :
  fault_free w →
  writes ≠ [] →
  _ids_from_config config = Ok (t, n, cid) →
  py_truthy cid = true →
  _key_writes self t n cid ≠ _key_cp self t n cid →
  ledger_entries self t n cid w = Some l →
  List.filter (entry_of_task task_id) l = [] →
  Forall (λ wr, fst wr ∉ map fst WRITES_IDX_MAP) writes →
  fst (get_tuple self config w) = Ok (Some tpl) →
  ∃ w1,
    put_writes self config writes task_id task_path w = (Ok tt, w1) ∧
    fst (get_tuple self config w1)
    = Ok (Some (with_pending tpl
                  (CheckpointTuple.pending_writes tpl ++ pending_of task_id writes))).
Proof.
  intros Hff Hne Hids Hcid Hkeys Hled Htask Hfree Hbefore.
  assert (Hnone : py_is_none cid = false) by (now destruct cid).
  rewrite (put_writes_world config writes task_id task_path w t n cid l
             Hff Hne Hids Hcid Hled).
  eexists. split; [reflexivity|].
  rewrite (get_tuple_explicit self config w t n cid Hff Hids Hnone) in Hbefore.
  rewrite (stored_pending_ledger t n cid w l Hled) in Hbefore.
  destruct (read_pending l) as [pw|] eqn:Hpw.
  2:{ unfold tuple_from in Hbefore.
      destruct (records w !! _) as [b|]; [|discriminate].
      destruct (py_is_none _ || py_is_none _); [discriminate|].
      destruct (loads_typed _ _); [|discriminate].
      destruct (py_is_none _ || py_is_none _); [discriminate|].
      destruct (loads_typed _ _); discriminate. }
  assert (Htpl : CheckpointTuple.pending_writes tpl = pw).
  { revert Hbefore. unfold tuple_from.
    destruct (records w !! _) as [b|]; [|discriminate].
    destruct (py_is_none _ || py_is_none _); [discriminate|].
    destruct (loads_typed _ _); [|discriminate].
    destruct (py_is_none _ || py_is_none _); [discriminate|].
    destruct (loads_typed _ _); [|discriminate].
    now intros [= <-]. }
  rewrite get_tuple_explicit with (t := t) (n := n) (cid := cid);
    [|now apply fault_free_wrote, fault_free_tick_clock, fault_free_tick_io
     |exact Hids|exact Hnone].
  rewrite records_wrote_ne by exact Hkeys. cbn [records tick_clock tick_io].
  assert (Hsp : stored_pending self t n cid
                  (wrote (_key_writes self t n cid)
                     (list_to_map
                        [("writes"%string,
                          PList (upsert_all task_id task_path (clock w (clock_count w))
                                   l 0 writes))])
                     (tick_clock (tick_io w)))
                = Ok (pw ++ pending_of task_id writes)).
  { unfold stored_pending. rewrite records_wrote_eq.
    erewrite bins_written by reflexivity. cbn [default from_option id snd].
    rewrite upsert_all_appends;
      [|exact Hfree
       |intros j _; apply (filter_none_weaken _ (entry_of_task task_id));
        [intros x; apply entry_matches_of_task|exact Htask]].
    assert (Hiter : ∀ x, (its <~ py_iter (py_or (PList x) (PList []));; read_pending its)%py
                         = read_pending x) by (now intros [|? ?]).
    rewrite Hiter, (read_pending_app _ _ pw Hpw), read_pending_new_entries.
    reflexivity. }
  rewrite Hsp, Htpl. now apply tuple_from_pending with (pw := pw).
Qed.

End WritesThenGet.

(** ** Stored entries that do not decode *)

Section LedgerDecoding.
Context `{E : Externals} (self : AerospikeSaver).

Lemma tuple_from_raise t n cid rec pw tpl e :
  tuple_from t n cid rec (Ok pw) = Ok (Some tpl) →
  tuple_from t n cid rec (Raise e) = Raise e.
Proof.
  unfold tuple_from. destruct rec as [b|]; [|discriminate].
  destruct (py_is_none _ || py_is_none _); [discriminate|].
  destruct (loads_typed _ _); [|discriminate].
  destruct (py_is_none _ || py_is_none _); [discriminate|].
  now destruct (loads_typed _ _).
Qed.

Lemma stored_pending_list t n cid w wb item items :
  records w !! _key_writes self t n cid = Some wb →
  wb !! "writes"%string = Some (PList (item :: items)) →
  stored_pending self t n cid w = read_pending (item :: items).
Proof.
  intros Hwb Hl. unfold stored_pending. now rewrite Hwb, Hl.
Qed.

(** X11.  How [get_tuple] treats one stored write-set entry, for a
    checkpoint whose record decodes.  An entry that is a dict without
    [channel], [type] or [value] is skipped.  An entry that is not a dict
    makes [get_tuple] raise [AttributeError], and an entry whose value
    [loads_typed] refuses with anything but [KeyError] makes it raise
    that exception: only [KeyError] is caught in the loop. *)
Theorem get_tuple_ledger_entry config w t n cid wb item items pw0 tpl0 :
  fault_free w →
  _ids_from_config config = Ok (t, n, cid) →
  py_is_none cid = false →
  tuple_from t n cid (records w !! _key_cp self t n cid) (Ok pw0) = Ok (Some tpl0) →
  records w !! _key_writes self t n cid = Some wb →
  wb !! "writes"%string = Some (PList (item :: items)) →
  (∀ d, item = PDict d →
        dict_lookup "channel" d = None ∨ dict_lookup "type" d = None ∨
        dict_lookup "value" d = None →
        fst (get_tuple self config w)
        = tuple_from t n cid (records w !! _key_cp self t n cid) (read_pending items)) ∧
  (is_dict item = false →
   fst (get_tuple self config w) = Raise AttributeError) ∧
  (∀ d ch ty raw e,
     item = PDict d →
     dict_lookup "channel" d = Some ch → dict_lookup "type" d = Some ty →
     dict_lookup "value" d = Some raw →
     loads_typed ty raw = Raise e → (∀ k, e ≠ KeyError k) →
     fst (get_tuple self config w) = Raise e).
Proof.
  intros Hff Hids Hcid Hrec Hwb Hl.
  rewrite (get_tuple_explicit self config w t n cid Hff Hids Hcid).
  rewrite (stored_pending_list t n cid w wb item items Hwb Hl).
  split; [|split].
  - intros d -> Hmiss. f_equal.
    cbn [read_pending]. unfold read_pending_item. cbn [py_get py_getitem rbind].
    destruct (dict_lookup "channel" d) as [ch|]; cbn [rbind];
      [|now destruct (read_pending items)].
    destruct (dict_lookup "type" d) as [ty|]; cbn [rbind];
      [|now destruct (read_pending items)].
    destruct (dict_lookup "value" d) as [raw|]; cbn [rbind];
      [|now destruct (read_pending items)].
    destruct Hmiss as [?|[?|?]]; discriminate.
  - intros Hnd.
    assert (Hr : read_pending (item :: items) = Raise AttributeError).
    { cbn [read_pending]. unfold read_pending_item.
      now destruct item. }
    rewrite Hr. exact (tuple_from_raise _ _ _ _ _ _ _ Hrec).
  - intros d ch ty raw e -> Hch Hty Hraw He Hnk.
    assert (Hr : read_pending (PDict d :: items) = Raise e).
    { cbn [read_pending]. unfold read_pending_item. cbn [py_get py_getitem rbind].
      rewrite Hch, Hty, Hraw. cbn [rbind]. rewrite He. cbn [rbind].
      destruct e; try reflexivity. now destruct (Hnk k). }
    rewrite Hr. exact (tuple_from_raise _ _ _ _ _ _ _ Hrec).
Qed.

End LedgerDecoding.

(** ** A timeline record of any content *)

Section TimelineRobust.
Context `{E : Externals} (L : ExternalsLaws E) (self : AerospikeSaver).

(** X12.  When the backend answers, [_read_timeline_items] returns and
    never raises, whatever the record holds: every entry it returns is a
    pair of a JSON timestamp and a string id; with no record, with an
    [items] bin that is not text, or with text that is not JSON it
    returns the empty list. *)
Theorem read_timeline_items_total k w :
  io_fault w (io_count w) = false →
  ∃ items,
    _read_timeline_items k w = (Ok items, tick_io w) ∧
    Forall wf_item items ∧
    (records w !! k = None → items = []) ∧
    (∀ b v, records w !! k = Some b → b !! "items"%string = Some v →
            (∀ s, v ≠ PStr s ∧ v ≠ PBytes s) → items = []) ∧
    (∀ b s, records w !! k = Some b → b !! "items"%string = Some (PStr s) →
            json_loads s = None → items = []).
Proof.
  intros Hf. unfold _read_timeline_items.
  rewrite (bind_ok _ _ _ _ _ (_get_nofault _ _ Hf)).
  destruct (records w !! k) as [b|]; cbn [fmap option_fmap option_map].
  - exists (parse_timeline b). split; [reflexivity|].
    split; [apply (parse_timeline_wf L)|]. split; [discriminate|]. split.
    + intros b' v [= <-] Hv Hnot. unfold parse_timeline. rewrite Hv.
      cbn [default from_option id]. unfold json_loads_py.
      destruct v as [| | |s|s| |]; try reflexivity; destruct (Hnot s); congruence.
    + intros b' s [= <-] Hs Hbad. unfold parse_timeline. rewrite Hs.
      cbn [default from_option id]. unfold json_loads_py. now rewrite Hbad.
  - exists []. split; [reflexivity|]. split; [constructor|].
    split; [reflexivity|]. split; discriminate.
Qed.

End TimelineRobust.

(** ** More on listing *)

Section ListMore.
Context `{E : Externals} (L : ExternalsLaws E) (self : AerospikeSaver).

Lemma list_loop_limit t n flt lim items :
  ∀ yielded w,
    (length (fst (fst (list_loop self t n flt (Some lim) items yielded w)))
     ≤ Z.to_nat (lim - yielded))%nat.
Proof.
  induction items as [|[ts cid] items IH]; intros yielded w; [simpl; lia|].
  cbn [list_loop].
  destruct (yielded >=? lim) eqn:Hlim; [simpl; lia|].
  assert (Hlt : yielded < lim).
  { rewrite Z.geb_leb in Hlim. apply Z.leb_gt in Hlim. exact Hlim. }
  destruct (get_tuple self (scope_config t n cid) w) as [[[tpl|]|e] w1];
    [|apply IH|simpl; lia].
  destruct (match flt with
            | Some (kv :: f) => filter_ok (kv :: f) (CheckpointTuple.metadata tpl)
            | _ => Ok true
            end) as [[|]|e]; [|apply IH|simpl; lia].
  specialize (IH (yielded + 1) w1).
  destruct (list_loop self t n flt (Some lim) items (yielded + 1) w1) as [[ys err] w2].
  simpl in *. lia.
Qed.

(** X13.  [list] with a limit yields at most that many tuples, and none
    for a limit of zero or less. *)
Theorem list_respects_limit config flt before lim w :
  (length (fst (fst (list_ self config flt before (Some lim) w))) ≤ Z.to_nat lim)%nat.
Proof.
  unfold list_.
  destruct (list_items self config before w) as [[[[t n] items]|e] w1];
    [|simpl; lia].
  pose proof (list_loop_limit t n flt lim items 0 w1) as H.
  now rewrite Z.sub_0_r in H.
Qed.

(** X14.  Without [before], or with a [before] config that has no
    truthy checkpoint id, [list] runs over the whole timeline: the ids it
    yields are ids of the timeline, in timeline order (newest first),
    each at most as often as the timeline has it. *)
Theorem list_in_timeline_order config flt before limit w t n cid0 :
  _ids_from_config (py_or config (PDict [])) = Ok (t, n, cid0) →
  before = PNone ∨
  (∃ bt bn bid, _ids_from_config (py_or before (PDict [])) = Ok (bt, bn, bid) ∧
                py_truthy bid = false) →
  map tuple_id (fst (fst (list_ self config flt before limit w)))
  `sublist_of` timeline_ids (timeline self t n w).
Proof.
  intros Hids Hbefore.
  assert (Hlift : lift (_ids_from_config (py_or config (PDict []))) w
                  = (Ok (t, n, cid0), w)) by (unfold lift; now rewrite Hids).
  unfold list_, list_items. rewrite (bind_ok _ _ _ _ _ Hlift).
  destruct (_read_timeline_items_cases self t n w) as [Hread|Hread].
  - rewrite (bind_ok _ _ _ _ _ Hread).
    assert (Hrun : ∃ bid, py_truthy bid = false ∧
              (if negb (py_is_none before)
               then (bids <- lift (_ids_from_config (py_or before (PDict [])));;
                     ret (snd bids))%M
               else ret PNone) (tick_io w) = (Ok bid, tick_io w)).
    { destruct Hbefore as [->|(bt & bn & bid & Hb & Hbid)].
      - now exists PNone.
      - destruct (py_is_none before) eqn:Hn.
        + now exists PNone.
        + exists bid. split; [exact Hbid|]. cbn [negb].
          unfold bind, lift, ret. now rewrite Hb. }
    destruct Hrun as (bid & Hbid & Hrun).
    rewrite (bind_ok _ _ _ _ _ Hrun). unfold ret. rewrite Hbid.
    destruct (list_loop self t n flt limit (timeline self t n w) 0 (tick_io w))
      as [[ys err] w2] eqn:Hloop.
    eapply list_loop_ids; [|exact Hloop]. apply (timeline_wf L).
  - rewrite (bind_raise _ _ _ _ _ Hread). apply sublist_nil_l.
Qed.

(** X15.  A [before] config is parsed like any config: when it has no
    thread id, [list] raises the [ValueError] of [_ids_from_config] and
    yields nothing, after it has read the timeline. *)
Theorem list_before_needs_thread_id config flt before limit w t n cid0 e :
  _ids_from_config (py_or config (PDict [])) = Ok (t, n, cid0) →
  io_fault w (io_count w) = false →
  py_is_none before = false →
  _ids_from_config (py_or before (PDict [])) = Raise e →
  list_ self config flt before limit w = ([], Some e, tick_io w).
Proof.
  intros Hids Hf Hbefore Hb.
  assert (Hlift : lift (_ids_from_config (py_or config (PDict []))) w
                  = (Ok (t, n, cid0), w)) by (unfold lift; now rewrite Hids).
  unfold list_, list_items. rewrite (bind_ok _ _ _ _ _ Hlift).
  rewrite (bind_ok _ _ _ _ _ (_read_timeline_items_nofault self _ _ _ Hf)).
  rewrite Hbefore. cbn [negb]. unfold bind, lift. now rewrite Hb.
Qed.

End ListMore.

(** ** What a put writes, and where *)

Section PutRecords.
Context `{E : Externals} (L : ExternalsLaws E) (self : AerospikeSaver).

(** X16.  After a [put] the checkpoint record, the latest pointer and
    the head of the timeline carry the same checkpoint id and the same
    timestamp: the checkpoint's own, or one clock reading when it has
    none.  The checkpoint record names the scope and the parent, and the
    clock is read once when the checkpoint has no timestamp and not at
    all otherwise. *)
Theorem put_records_agree config cp md nv w t n parent c extra :
  1 ≤ timeline_max self →
  fault_free w →
  _ids_from_config config = Ok (t, n, parent) →
  py_get config "metadata" (PDict []) = Ok (PDict extra) →
  dict_lookup "id" cp = Some (PStr c) →
  valid_checkpoint_id c →
  is_json (default PNone (dict_lookup "ts" cp)) = true →
  let ts := stamp_ts cp w in
  ∃ cfg' w' bc bl,
    put self config cp md nv w = (Ok cfg', w') ∧
    records w' !! _key_cp self t n (PStr c) = Some bc ∧
    bc !! "thread_id"%string = Some t ∧
    bc !! "checkpoint_ns"%string = Some n ∧
    bc !! "checkpoint_id"%string = Some (PStr c) ∧
    bc !! "p_checkpoint_id"%string = Some parent ∧
    bc !! "ts"%string = Some ts ∧
    records w' !! _key_latest self t n = Some bl ∧
    bl !! "checkpoint_id"%string = Some (PStr c) ∧
    bl !! "ts"%string = Some ts ∧
    head (timeline self t n w') = Some (ts, PStr c) ∧
    clock_count w'
    = (if py_is_none (default PNone (dict_lookup "ts" cp))
       then S (clock_count w) else clock_count w).
Proof.
  intros Hcap Hff Hids Hmd Hid Hvalid Hts ts.
  destruct (valid_id_keys L self t n c Hvalid) as (Hk1 & Hk2 & _).
  destruct (put_run_result L self config cp md nv w t n parent c extra
              Hff Hids Hid (proj1 Hvalid) Hk2 Hts Hmd) as (text & Hl & Hput).
  eexists _, _, _, _. split; [exact Hput|].
  split; [now apply put_world_cp|].
  do 5 (split; [apply bins_written; reflexivity|]).
  split.
  { unfold put_world.
    rewrite records_wrote_ne
      by (intros H; symmetry in H; now apply key_latest_timeline in H).
    cbn [records tick_io]. apply records_wrote_eq. }
  do 2 (split; [apply bins_written; reflexivity|]).
  split.
  - unfold put_world. rewrite (timeline_written self t n text _ _ Hl).
    + rewrite timeline_step_take by exact Hcap.
      destruct (Z.to_nat (timeline_max self)) eqn:Hm; [lia|]. reflexivity.
    + apply timeline_step_wf; [now apply stamp_ts_json|apply (timeline_wf L)].
  - unfold put_world, stamp_world. cbn [clock_count wrote tick_io set_records].
    now destruct (py_is_none _).
Qed.

(** X17.  A [put] writes the checkpoint key, the pointer key and the
    timeline key of its scope and no other: every other record of the
    backend is as it was. *)
Theorem put_touches_three_keys config cp md nv w t n c k :
  fault_free w →
  put_ok_input t n config cp c →
  k ≠ _key_cp self t n (PStr c) →
  k ≠ _key_latest self t n →
  k ≠ _key_timeline self t n →
  ∃ cfg' w',
    put self config cp md nv w = (Ok cfg', w') ∧
    records w' !! k = records w !! k.
Proof.
  intros Hff ([parent Hids] & [extra Hmd] & Hid & Hvalid & Hts) H1 H2 H3.
  destruct (valid_id_keys L self t n c Hvalid) as (_ & Hk2 & _).
  destruct (put_run_result L self config cp md nv w t n parent c extra
              Hff Hids Hid (proj1 Hvalid) Hk2 Hts Hmd) as (text & _ & Hput).
  eexists _, _. split; [exact Hput|]. now apply put_world_other.
Qed.

(** X18.  A [put_writes] that stores writes changes the write-set
    record of its checkpoint and no other record; the record it leaves
    has the merged entries in its [writes] bin. *)
Theorem put_writes_touches_one_key config writes task_id task_path w t n cid l :
  fault_free w →
  writes ≠ [] →
  _ids_from_config config = Ok (t, n, cid) →
  py_truthy cid = true →
  ledger_entries self t n cid w = Some l →
  ∃ w' b,
    put_writes self config writes task_id task_path w = (Ok tt, w') ∧
    (∀ k, k ≠ _key_writes self t n cid → records w' !! k = records w !! k) ∧
    records w' !! _key_writes self t n cid = Some b ∧
    b !! "writes"%string
    = Some (PList (upsert_all task_id task_path (clock w (clock_count w)) l 0 writes)).
Proof.
  intros Hff Hne Hids Hcid Hled.
  rewrite (put_writes_world self config writes task_id task_path w t n cid l
             Hff Hne Hids Hcid Hled).
  eexists _, _. split; [reflexivity|]. split; [|split].
  - intros k Hk. now rewrite records_wrote_ne by congruence.
  - apply records_wrote_eq.
  - apply bins_written. reflexivity.
Qed.

End PutRecords.

(** ** The cap of a constructed saver *)

Section InitCap.
Context `{E : Externals} (L : ExternalsLaws E).

(** X19.  A saver built by [__init__] keeps at least the newest entry,
    whatever [timeline_max] it was given: after a [put] the timeline
    starts with the entry just written and has at most
    [max(1, timeline_max)] entries, and for [timeline_max] of 1, 0 or
    less it is that one entry. *)
Theorem init_keeps_newest namespace scp sw sm ttl_ tmax config cp md nv w t n c :
  let self := __init__ namespace scp sw sm ttl_ tmax in
  fault_free w →
  put_ok_input t n config cp c →
  ∃ cfg' w' rest,
    put self config cp md nv w = (Ok cfg', w') ∧
    timeline self t n w' = (stamp_ts cp w, PStr c) :: rest ∧
    (length (timeline self t n w') ≤ Z.to_nat (Z.max 1 tmax))%nat ∧
    (tmax ≤ 1 → rest = []).
Proof.
  intros self Hff Hin.
  assert (Hcap : timeline_max self = Z.max 1 tmax) by reflexivity.
  destruct (put_timeline L self config cp md nv w t n c Hff Hin)
    as (cfg' & w' & Hput & _ & Htl).
  rewrite timeline_step_take in Htl by (rewrite Hcap; lia).
  rewrite Hcap in Htl.
  destruct (Z.to_nat (Z.max 1 tmax)) as [|m] eqn:Hm; [lia|].
  rewrite firstn_cons in Htl.
  eexists cfg', w', _. split; [exact Hput|]. split; [exact Htl|]. split.
  - rewrite Htl. simpl. rewrite length_take. lia.
  - intros Hle. assert (m = 0%nat) as -> by lia. reflexivity.
Qed.

End InitCap.

(** ** The theorems on concrete input *)

Module Witness.
Import Toy Sample.

Ltac distinct_ids :=
  repeat (apply NoDup_cons_2;
          [let Hm := fresh in
           intros Hm;
           repeat (apply elem_of_cons in Hm as [Hm|Hm]; [discriminate Hm|]);
           now apply elem_of_nil in Hm|]);
  apply NoDup_nil_2.

Lemma saver_cap : 1 ≤ timeline_max saver.
Proof. vm_compute. discriminate. Qed.

Lemma valid_id_c (c : string) :
  (c =? EmptyString)%string = false →
  (c =? "__latest__")%string = false →
  (c =? "__timeline__")%string = false →
  valid_checkpoint_id c.
Proof. intros H1 H2 H3. repeat split; now apply String.eqb_neq. Qed.

Lemma cp_input c x :
  (c =? EmptyString)%string = false →
  (c =? "__latest__")%string = false →
  (c =? "__timeline__")%string = false →
  put_ok_input thread namespace config (cp c x) c.
Proof.
  intros H1 H2 H3. split; [now exists PNone|]. split; [now exists []|].
  split; [reflexivity|]. split; [now apply valid_id_c|reflexivity].
Qed.

Lemma world1_fault_free : fault_free world1.
Proof. intros n. vm_compute. reflexivity. Qed.

Lemma world2_fault_free : fault_free world2.
Proof. intros n. vm_compute. reflexivity. Qed.

Lemma put_moves_id_to_head_witness :
  ∃ cfg' w',
    put saver config (cp "c1" 3) [] PNone world2 = (Ok cfg', w') ∧
    let before := timeline_ids (timeline saver thread namespace world2) in
    let after := timeline_ids (timeline saver thread namespace w') in
    after = take (Z.to_nat (timeline_max saver))
              (PStr "c1" :: List.filter (λ x, negb (py_eq x (PStr "c1"))) before) ∧
    (∃ rest, after = PStr "c1" :: rest ∧ PStr "c1" ∉ rest) ∧
    (NoDup before → NoDup after).
Proof.
  apply (put_moves_id_to_head ToyLaws.laws saver config (cp "c1" 3) [] PNone world2
           thread namespace "c1").
  - exact saver_cap.
  - exact world2_fault_free.
  - now apply cp_input.
Defined.

Lemma timeline_bounded_witness :
  ∃ w',
    put_all saver [(config, cp "c1" 1, []); (config, cp "c2" 2, []);
                   (config, cp "c3" 3, [])] world0 = (Ok tt, w') ∧
    timeline_ids (timeline saver thread namespace w') = [PStr "c3"; PStr "c2"] ∧
    length (timeline saver thread namespace w') = 2%nat.
Proof.
  destruct (timeline_bounded ToyLaws.laws saver thread namespace
              [(config, cp "c1" 1, []); (config, cp "c2" 2, []);
               (config, cp "c3" 3, [])] world0)
    as (w' & Hrun & _ & H).
  - exact saver_cap.
  - exact ToyLaws.world0_fault_free.
  - repeat constructor; eexists; now apply cp_input.
  - exists w'. split; [exact Hrun|].
    destruct H as [Hids Hlen].
    + vm_compute. reflexivity.
    + vm_compute. distinct_ids.
    + split; [exact Hids|]. apply Hlen. vm_compute. reflexivity.
Defined.

Lemma cp_at_input c ts :
  (c =? EmptyString)%string = false →
  (c =? "__latest__")%string = false →
  (c =? "__timeline__")%string = false →
  put_ok_input thread namespace config (cp_at c ts) c.
Proof.
  intros H1 H2 H3. split; [now exists PNone|]. split; [now exists []|].
  split; [reflexivity|]. split; [now apply valid_id_c|reflexivity].
Qed.

(** [B] is written last with the older timestamp and is the latest. *)
Lemma latest_is_last_put_witness :
  ∃ cfgA' w1 cfgB' w2 tpl w3,
    put saver config (cp_at "A" 20) [] PNone world0 = (Ok cfgA', w1) ∧
    put saver config (cp_at "B" 10) [] PNone w1 = (Ok cfgB', w2) ∧
    get_tuple saver config w2 = (Ok (Some tpl), w3) ∧
    CheckpointTuple.config tpl = scope_config thread namespace (PStr "B") ∧
    CheckpointTuple.checkpoint tpl = PDict (stamp_cp (cp_at "B" 10) w1).
Proof.
  apply (latest_is_last_put ToyLaws.laws saver config (cp_at "A" 20) [] PNone
           config (cp_at "B" 10) [] PNone config world0 thread namespace "A" "B").
  - exact ToyLaws.world0_fault_free.
  - now apply cp_at_input.
  - now apply cp_at_input.
  - discriminate.
  - reflexivity.
  - vm_compute. reflexivity.
Defined.

(** The write-set scenario of the specification: two writes of task
    [t] on channel [a], values 1 then 2. *)
Lemma put_writes_replace_or_append_witness :
  ∃ w1 l1 w2 l2,
    put_writes saver (config_at "c1") [("a"%string, PInt 1)] "t" EmptyString world1
    = (Ok tt, w1) ∧
    ledger_entries saver thread namespace (PStr "c1") w1 = Some l1 ∧
    put_writes saver (config_at "c1") [("a"%string, PInt 2)] "t" EmptyString w1
    = (Ok tt, w2) ∧
    ledger_entries saver thread namespace (PStr "c1") w2 = Some l2 ∧
    List.filter (entry_matches "t" 0) l2
    = [new_entry "t" EmptyString (clock world1 (S (clock_count world1)))
         "a" 0 (PInt 2)].
Proof.
  destruct (put_writes_replace_or_append saver (config_at "c1") "t" EmptyString
              "a" (PInt 1) "a" (PInt 2) world1 thread namespace (PStr "c1") [])
    as [(w1 & l1 & w2 & l2 & H1 & H2 & H3 & H4 & H5 & _) _].
  - exact world1_fault_free.
  - reflexivity.
  - reflexivity.
  - vm_compute. reflexivity.
  - reflexivity.
  - simpl. lia.
  - exists w1, l1, w2, l2. auto.
Defined.

Lemma list_before_strictly_after_witness :
  let ys := fst (fst (list_ saver config None (config_at "c2") None world2)) in
  let tl := timeline saver thread namespace world2 in
  map tuple_id ys `sublist_of` timeline_ids (after_first (PStr "c2") tl) ∧
  (NoDup (timeline_ids tl) → PStr "c2" ∉ map tuple_id ys).
Proof.
  destruct (list_before_strictly_after ToyLaws.laws saver config None (config_at "c2")
              None world2 thread namespace PNone thread namespace "c2")
    as (H1 & H2 & _).
  - reflexivity.
  - reflexivity.
  - reflexivity.
  - discriminate.
  - split; [exact H1|exact H2].
Defined.

Lemma get_tuple_absent_witness :
  ∃ w', get_tuple saver config world0 = (Ok None, w').
Proof.
  apply (get_tuple_absent saver config world0 thread namespace PNone).
  - exact ToyLaws.world0_fault_free.
  - reflexivity.
  - left. split; [reflexivity|]. vm_compute. reflexivity.
Defined.

(** C7 as stated fails: the first write succeeds, the pointer write
    fails, and [put] raises instead of returning. *)
Lemma put_throws_on_pointer_failure :
  let r := put saver config (cp "c1" 1) [] PNone (world_fault 1) in
  io_fault (world_fault 1) 0 = false ∧
  io_fault (world_fault 1) 1 = true ∧
  fst r = Raise (RuntimeError OpPut (_key_latest saver thread namespace)) ∧
  is_Some (records (snd r) !! _key_cp saver thread namespace (PStr "c1")) ∧
  ¬ (∃ cfg', fst r = Ok cfg').
Proof.
  assert (H : fst (put saver config (cp "c1" 1) [] PNone (world_fault 1))
              = Raise (RuntimeError OpPut (_key_latest saver thread namespace))).
  { vm_compute. reflexivity. }
  cbn zeta. split; [reflexivity|]. split; [reflexivity|]. split; [exact H|]. split.
  - apply is_Some_alt. vm_compute. exact I.
  - intros [cfg' Hok]. rewrite H in Hok. discriminate Hok.
Qed.

Lemma put_backend_failure_witness :
  ∃ op k w' b,
    put saver config (cp "c1" 1) [] PNone (world_fault 1)
    = (Raise (RuntimeError op k), w') ∧
    (k = _key_latest saver thread namespace ∨ k = _key_timeline saver thread namespace) ∧
    k ≠ _key_cp saver thread namespace (PStr "c1") ∧
    records w' !! _key_cp saver thread namespace (PStr "c1") = Some b ∧
    b !! "checkpoint"%string
    = Some (PBytes (snd (dumps_typed (PDict (stamp_cp (cp "c1" 1) (world_fault 1)))))).
Proof.
  apply (proj2 (put_backend_failure ToyLaws.laws saver config (cp "c1" 1) [] PNone
                  (world_fault 1) thread namespace "c1" ltac:(now apply cp_input))).
  - reflexivity.
  - left. reflexivity.
Defined.

(** C8 at the failing input: the ledger record of [c1] has no [writes]
    bin and a write for [c1] raises [TypeError]. *)
Lemma put_writes_malformed_ledger_raises_witness :
  ∃ w', put_writes saver (config_at "c1") [("a"%string, PInt 1)] "t" EmptyString
          world_stray = (Raise TypeError, w') ∧
        records w' = records world_stray.
Proof.
  apply (proj1 (put_writes_malformed_ledger_raises saver (config_at "c1")
                  [("a"%string, PInt 1)] "t" EmptyString world_stray
                  thread namespace (PStr "c1") stray_bins
                  ToyLaws.world0_fault_free ltac:(easy) eq_refl eq_refl
                  ltac:(vm_compute; reflexivity))).
  vm_compute. reflexivity.
Defined.

(** C9 as stated fails: the filter has key [k], the metadata of [c1]
    has no [k], and [c1] is yielded. *)
Lemma list_yields_checkpoint_without_filter_key :
  let flt := [("k"%string, PNone)] in
  let ys := fst (fst (list_ saver config (Some flt) PNone None world1)) in
  ∃ tpl, tpl ∈ ys ∧
         ("k"%string, PNone) ∈ flt ∧
         CheckpointTuple.metadata tpl = PDict [] ∧
         dict_lookup "k" [] = None.
Proof.
  cbn zeta. eexists. split; [vm_compute; apply list_elem_of_here|].
  split; [apply list_elem_of_here|]. split; reflexivity.
Qed.

(** [c1] has no metadata key [k]; the filter asks [k] to be [None]. *)
Lemma list_filter_matches_witness :
  (∃ x, py_get (CheckpointTuple.metadata tuple1) "k" PNone = Ok x ∧
        py_eq x PNone = true) ∧
  (∀ d, CheckpointTuple.metadata tuple1 = PDict d →
        dict_lookup "k" d = None → PNone = PNone).
Proof.
  apply (list_filter_matches saver config [("k"%string, PNone)] PNone None world1
           tuple1 "k" PNone).
  - vm_compute. apply list_elem_of_here.
  - apply list_elem_of_here.
Defined.

Lemma put_writes_empty_returns_first_witness :
  put_writes saver PNone [("a"%string, PInt 1)] "t" EmptyString world0
  = (Raise (ValueError "configurable.thread_id is required in RunnableConfig"), world0).
Proof.
  apply (proj2 (put_writes_empty_returns_first saver) PNone [("a"%string, PInt 1)]
           "t" EmptyString world0).
  - discriminate.
  - reflexivity.
Defined.

Import Handmade.

Lemma ids_from_config_shape_witness :
  py_truthy thread = true ∧ (py_truthy namespace = true ∨ namespace = PStr EmptyString).
Proof.
  apply (ids_from_config_shape config thread namespace PNone). reflexivity.
Defined.

(** A config that names a checkpoint and no thread. *)
Lemma ids_from_config_requires_thread_witness :
  _ids_from_config
    (PDict [("configurable"%string, PDict [("checkpoint_id"%string, PStr "c1")])])
  = Raise (ValueError "configurable.thread_id is required in RunnableConfig").
Proof.
  apply (ids_from_config_requires_thread
           (PDict [("configurable"%string, PDict [("checkpoint_id"%string, PStr "c1")])])
           [("configurable"%string, PDict [("checkpoint_id"%string, PStr "c1")])]
           [("checkpoint_id"%string, PStr "c1")] []); reflexivity.
Defined.

Lemma keys_injective_witness :
  _key_cp saver (PStr "t1") (PStr "a") (PStr "c1")
  ≠ _key_cp saver (PStr "t2") (PStr "a") (PStr "c1").
Proof.
  intros Heq.
  destruct (keys_injective ToyLaws.laws saver "t1" "a" "t2" "a" "c1" "c1"
              eq_refl eq_refl eq_refl eq_refl) as [Hcp _].
  destruct (Hcp Heq) as [Ht _]. discriminate Ht.
Defined.

Lemma keys_collide_on_separator_witness :
  _key_cp saver (PStr "a|b") (PStr "c") (PStr "c1")
  = _key_cp saver (PStr "a") (PStr "b|c") (PStr "c1") ∧
  _key_writes saver (PStr "a|b") (PStr "c") (PStr "c1")
  = _key_writes saver (PStr "a") (PStr "b|c") (PStr "c1") ∧
  _key_latest saver (PStr "a|b") (PStr "c") = _key_latest saver (PStr "a") (PStr "b|c") ∧
  _key_timeline saver (PStr "a|b") (PStr "c") = _key_timeline saver (PStr "a") (PStr "b|c").
Proof.
  exact (keys_collide_on_separator ToyLaws.laws saver "a" "b" "c" (PStr "c1")).
Defined.

Lemma put_validates_first_witness :
  put saver PNone (cp "c1" 1) [] PNone world1
  = (Raise (ValueError "configurable.thread_id is required in RunnableConfig"), world1) ∧
  put saver config [("x"%string, PInt 1)] [] PNone world1
  = (Raise (ValueError "checkpoint_id is required for put()"), world1).
Proof.
  split.
  - apply (proj1 (put_validates_first saver PNone (cp "c1" 1) [] PNone world1)).
    reflexivity.
  - apply (proj2 (put_validates_first saver config [("x"%string, PInt 1)] [] PNone world1)
             (thread, namespace, PNone)); reflexivity.
Defined.

Lemma put_writes_without_checkpoint_id_witness :
  put_writes saver config [("a"%string, PInt 1)] "t" EmptyString world1 = (Ok tt, world1).
Proof.
  apply (put_writes_without_checkpoint_id saver config [("a"%string, PInt 1)] "t"
           EmptyString world1 thread namespace PNone); reflexivity.
Defined.

Lemma put_then_get_tuple_witness :
  let cfg' := put_result config thread namespace (PStr "c1") in
  ∃ w1 w2,
    put saver config (cp "c1" 1) [] PNone world0 = (Ok cfg', w1) ∧
    _ids_from_config cfg' = Ok (thread, namespace, PStr "c1") ∧
    get_tuple saver cfg' w1
    = (Ok (Some (CheckpointTuple.mk (scope_config thread namespace (PStr "c1"))
                   (PDict (stamp_cp (cp "c1" 1) world0))
                   (PDict (dict_update [] []))
                   None [])), w2).
Proof.
  apply (put_then_get_tuple ToyLaws.laws saver config (cp "c1" 1) [] PNone world0
           thread namespace PNone "c1" [] []).
  - exact ToyLaws.world0_fault_free.
  - reflexivity.
  - reflexivity.
  - reflexivity.
  - now apply valid_id_c.
  - reflexivity.
  - vm_compute. reflexivity.
Defined.

Lemma put_keeps_other_checkpoints_witness :
  ∃ cfg' w',
    put saver config (cp "c2" 2) [] PNone world1 = (Ok cfg', w') ∧
    fst (get_tuple saver (config_at "c1") w') = fst (get_tuple saver (config_at "c1") world1).
Proof.
  apply (put_keeps_other_checkpoints ToyLaws.laws saver config (cp "c2" 2) [] PNone
           world1 thread namespace "c2" (config_at "c1") "c1").
  - exact world1_fault_free.
  - now apply cp_input.
  - reflexivity.
  - discriminate.
  - discriminate.
  - discriminate.
Defined.

Lemma put_writes_then_get_tuple_witness :
  ∃ w1,
    put_writes saver (config_at "c1") [("a"%string, PInt 1)] "t" EmptyString world1
    = (Ok tt, w1) ∧
    fst (get_tuple saver (config_at "c1") w1)
    = Ok (Some (with_pending tuple1
                  (CheckpointTuple.pending_writes tuple1
                   ++ pending_of "t" [("a"%string, PInt 1)]))).
Proof.
  apply (put_writes_then_get_tuple ToyLaws.laws saver (config_at "c1")
           [("a"%string, PInt 1)] "t" EmptyString world1 thread namespace (PStr "c1")
           [] tuple1).
  - exact world1_fault_free.
  - discriminate.
  - reflexivity.
  - reflexivity.
  - vm_compute. discriminate.
  - vm_compute. reflexivity.
  - reflexivity.
  - constructor; [|constructor]. cbn. intros Hm.
    repeat (apply elem_of_cons in Hm as [Hm|Hm]; [discriminate Hm|]).
    now apply elem_of_nil in Hm.
  - vm_compute. reflexivity.
Defined.

Lemma world_ledger_fault_free l : fault_free (world_ledger l).
Proof. intros k. exact (world1_fault_free k). Qed.

Lemma world_ledger_checkpoint l :
  tuple_from thread namespace (PStr "c1")
    (records (world_ledger l) !! _key_cp saver thread namespace (PStr "c1")) (Ok [])
  = Ok (Some tuple1).
Proof. vm_compute. reflexivity. Qed.

Lemma world_ledger_record l :
  records (world_ledger l) !! _key_writes saver thread namespace (PStr "c1")
  = Some {[ "writes"%string := PList l ]}.
Proof. vm_compute. reflexivity. Qed.

Lemma world_ledger_bin l :
  ({[ "writes"%string := PList l ]} : bins) !! "writes"%string = Some (PList l).
Proof. vm_compute. reflexivity. Qed.

(** A partial entry is skipped, a non-dict entry raises
    [AttributeError], an undecodable payload raises the codec's error. *)
Lemma get_tuple_ledger_entry_witness :
  fst (get_tuple saver (config_at "c1") (world_ledger [partial_entry]))
  = Ok (Some tuple1) ∧
  fst (get_tuple saver (config_at "c1") (world_ledger [PInt 7]))
  = Raise AttributeError ∧
  fst (get_tuple saver (config_at "c1") (world_ledger [undecodable_entry]))
  = Raise TypeError.
Proof.
  pose proof (λ l item items Hl,
    get_tuple_ledger_entry saver (config_at "c1") (world_ledger l) thread namespace
      (PStr "c1") {[ "writes"%string := PList l ]} item items [] tuple1
      (world_ledger_fault_free l) eq_refl eq_refl (world_ledger_checkpoint l)
      (world_ledger_record l) (eq_trans (world_ledger_bin l) Hl)) as H.
  split; [|split].
  - destruct (H [partial_entry] partial_entry [] eq_refl) as (Hskip & _).
    rewrite (Hskip [("channel"%string, PStr "a")] eq_refl (or_intror (or_introl eq_refl))).
    vm_compute. reflexivity.
  - destruct (H [PInt 7] (PInt 7) [] eq_refl) as (_ & Hnd & _).
    exact (Hnd eq_refl).
  - destruct (H [undecodable_entry] undecodable_entry [] eq_refl) as (_ & _ & Hdec).
    apply (Hdec [("task_id"%string, PStr "t"); ("channel"%string, PStr "a");
                 ("type"%string, PStr "toy"); ("value"%string, PInt 3)]
             (PStr "a") (PStr "toy") (PInt 3) TypeError eq_refl eq_refl eq_refl eq_refl
             eq_refl).
    intros k. discriminate.
Defined.

(** The timeline of [world2] is read whole; no record, an integer bin
    and a text that is no JSON each read as the empty timeline. *)
Lemma read_timeline_items_total_witness :
  let k := _key_timeline saver thread namespace in
  (∃ items, _read_timeline_items k world2 = (Ok items, tick_io world2) ∧
            Forall wf_item items) ∧
  _read_timeline_items k world0 = (Ok [], tick_io world0) ∧
  _read_timeline_items k (world_items (PInt 3)) = (Ok [], tick_io (world_items (PInt 3))) ∧
  _read_timeline_items k (world_items (PStr (text (PBytes "x"))))
  = (Ok [], tick_io (world_items (PStr (text (PBytes "x"))))).
Proof.
  intros k. split; [|split; [|split]].
  - destruct (read_timeline_items_total ToyLaws.laws k world2 (world2_fault_free _))
      as (items & Hrun & Hwf & _).
    exists items. split; assumption.
  - destruct (read_timeline_items_total ToyLaws.laws k world0 eq_refl)
      as (items & Hrun & _ & Hnone & _).
    rewrite Hrun, Hnone; [reflexivity|]. vm_compute. reflexivity.
  - destruct (read_timeline_items_total ToyLaws.laws k (world_items (PInt 3)) eq_refl)
      as (items & Hrun & _ & _ & Hbin & _).
    rewrite Hrun, (Hbin {[ "items"%string := PInt 3 ]} (PInt 3)); [reflexivity| | |].
    + vm_compute. reflexivity.
    + vm_compute. reflexivity.
    + intros s. split; discriminate.
  - destruct (read_timeline_items_total ToyLaws.laws k
                (world_items (PStr (text (PBytes "x")))) eq_refl)
      as (items & Hrun & _ & _ & _ & Hjson).
    rewrite Hrun, (Hjson {[ "items"%string := PStr (text (PBytes "x")) ]}
                     (text (PBytes "x"))); [reflexivity| | |].
    + vm_compute. reflexivity.
    + vm_compute. reflexivity.
    + vm_compute. reflexivity.
Defined.

Lemma list_in_timeline_order_witness :
  map tuple_id (fst (fst (list_ saver config None PNone None world2)))
  `sublist_of` timeline_ids (timeline saver thread namespace world2).
Proof.
  apply (list_in_timeline_order ToyLaws.laws saver config None PNone None world2
           thread namespace PNone).
  - reflexivity.
  - left. reflexivity.
Defined.

(** [before] is the empty config: it names no thread. *)
Lemma list_before_needs_thread_id_witness :
  list_ saver config None (PDict []) None world2
  = ([], Some (ValueError "configurable.thread_id is required in RunnableConfig"),
     tick_io world2).
Proof.
  apply (list_before_needs_thread_id saver config None (PDict []) None world2
           thread namespace PNone).
  - reflexivity.
  - apply world2_fault_free.
  - reflexivity.
  - reflexivity.
Defined.

Lemma put_records_agree_witness :
  let ts := stamp_ts (cp "c1" 1) world0 in
  ∃ cfg' w' bc bl,
    put saver config (cp "c1" 1) [] PNone world0 = (Ok cfg', w') ∧
    records w' !! _key_cp saver thread namespace (PStr "c1") = Some bc ∧
    bc !! "thread_id"%string = Some thread ∧
    bc !! "checkpoint_ns"%string = Some namespace ∧
    bc !! "checkpoint_id"%string = Some (PStr "c1") ∧
    bc !! "p_checkpoint_id"%string = Some PNone ∧
    bc !! "ts"%string = Some ts ∧
    records w' !! _key_latest saver thread namespace = Some bl ∧
    bl !! "checkpoint_id"%string = Some (PStr "c1") ∧
    bl !! "ts"%string = Some ts ∧
    head (timeline saver thread namespace w') = Some (ts, PStr "c1") ∧
    clock_count w' = 1%nat.
Proof.
  apply (put_records_agree ToyLaws.laws saver config (cp "c1" 1) [] PNone world0
           thread namespace PNone "c1" []).
  - exact saver_cap.
  - exact ToyLaws.world0_fault_free.
  - reflexivity.
  - reflexivity.
  - reflexivity.
  - now apply valid_id_c.
  - reflexivity.
Defined.

(** A [put] of [c2] leaves the record of [c1] alone. *)
Lemma put_touches_three_keys_witness :
  ∃ cfg' w',
    put saver config (cp "c2" 2) [] PNone world1 = (Ok cfg', w') ∧
    records w' !! _key_cp saver thread namespace (PStr "c1")
    = records world1 !! _key_cp saver thread namespace (PStr "c1").
Proof.
  apply (put_touches_three_keys ToyLaws.laws saver config (cp "c2" 2) [] PNone world1
           thread namespace "c2").
  - exact world1_fault_free.
  - now apply cp_input.
  - vm_compute. discriminate.
  - vm_compute. discriminate.
  - vm_compute. discriminate.
Defined.

Lemma put_writes_touches_one_key_witness :
  ∃ w' b,
    put_writes saver (config_at "c1") [("a"%string, PInt 1)] "t" EmptyString world1
    = (Ok tt, w') ∧
    (∀ k, k ≠ _key_writes saver thread namespace (PStr "c1") →
          records w' !! k = records world1 !! k) ∧
    records w' !! _key_writes saver thread namespace (PStr "c1") = Some b ∧
    b !! "writes"%string
    = Some (PList (upsert_all "t" EmptyString (clock world1 (clock_count world1)) [] 0
                     [("a"%string, PInt 1)])).
Proof.
  apply (put_writes_touches_one_key saver (config_at "c1") [("a"%string, PInt 1)] "t"
           EmptyString world1 thread namespace (PStr "c1") []).
  - exact world1_fault_free.
  - discriminate.
  - reflexivity.
  - reflexivity.
  - vm_compute. reflexivity.
Defined.

(** A saver asked for a timeline of no entry keeps one. *)
Lemma init_keeps_newest_witness :
  let self := __init__ "test" "lg_cp" "lg_cp_w" "lg_cp_meta" None 0 in
  ∃ cfg' w' rest,
    put self config (cp "c2" 2) [] PNone world1 = (Ok cfg', w') ∧
    timeline self thread namespace w' = (stamp_ts (cp "c2" 2) world1, PStr "c2") :: rest ∧
    (length (timeline self thread namespace w') ≤ 1)%nat ∧
    (0 ≤ 1 → rest = []).
Proof.
  apply (init_keeps_newest ToyLaws.laws "test" "lg_cp" "lg_cp_w" "lg_cp_meta" None 0
           config (cp "c2" 2) [] PNone world1 thread namespace "c2").
  - exact world1_fault_free.
  - now apply cp_input.
Defined.

End Witness.
